(* ===== verification/_CoqProject ===== *)
-Q . S2P
Prelude.v
ScalarQ.v
Kernels.v
Buffer.v
Weights.v
Resample.v
LanczosR.v
Schedule.v
Cache.v
Generator.v
