(* ===== verification/Prelude.v ===== *)
(** * Verification of the Halide resize generator (apps/resize)

    This development models [src/apps/resize/resize_generator.cpp], the
    Halide generator that resizes a 3-D float image (axes x, y, channel)
    by an arbitrary uniform [scale_factor] with a separable interpolation
    kernel, and proves the properties that make it correct.

    ** The program and its parts

    The generator is one C++ file.  Its parts, leaves first:
    - Kernel Library (lines 5-52): the enum [InterpolationType], the four
      kernels [kernel_box], [kernel_linear], [kernel_cubic],
      [kernel_lanczos] (with [sinc]), the [KernelInfo] struct and the
      [kernel_info] table that gives each kernel its name and native tap
      count.  The generator parameter [interpolation_type] (lines 56-61)
      maps the names "box", "linear", "cubic", "lanczos" to the enum.
    - Boundary Handler (lines 83-85): [clamped], the input wrapped in
      [BoundaryConditions::repeat_edge] over the x and y ranges.
    - Kernel Weight Generator (lines 90-116): [kernel_scaling],
      [kernel_radius], [kernel_taps], [sourcex]/[sourcey],
      [beginx]/[beginy], [unnormalized_kernel_x/_y], [kernel_sum_x/_y],
      [kernel_x/_y].
    - Separable Resampler (lines 121-129): [resized_x], [resized_y] and
      [output], composed x-then-y when [upsample] holds and y-then-x
      otherwise, with a final clamp to [0,1].
    - Execution Strategy (lines 132-175): the schedule (tiles, vector
      and parallel loops, compute_at placement), which changes the order
      in which the output is written but not its values.
    - Generator class (lines 54-81, 130): the class [Resize] with its
      two GeneratorParams, its Inputs and Funcs, and [generate], which
      composes all of the above; the generator compiles [generate] with
      [schedule] into the pipeline that fills the output buffer.

    Halide [Expr]s of type float are modelled through the interface
    [FloatOps] of this file: a class whose operations are those the
    generator applies to float expressions (literals, int-to-float
    conversion, + - * /, abs, min, max, comparisons, ceil-and-cast,
    sin and the constant [float(M_PI)]).  Every definition of the
    development is generic in that interface, so one definition per
    source function serves both instances:
    - [ScalarQ.v]: exact rational arithmetic ([Q]); every definition
      computes, so witnesses evaluate with [vm_compute].  Floats are
      idealised as exact rationals: rounding is not modelled.  [Q] has
      no sine, so the instance supplies a Taylor polynomial in place of
      [sin]; no theorem about the Lanczos kernel over [Q] depends on it.
    - [LanczosR.v]: real arithmetic ([R]) with the true [sin], and
      [float(M_PI)] as the binary32 value the code uses
      ([13176795 / 2^22], [pi_f]), for the Lanczos kernel, whose
      behaviour depends on [sin].

    ** Files (in dependency order)
    - [Prelude.v] (this file): the [FloatOps] interface and its notation
      scope [halide_scope]; Halide's [select], [clamp], [RDom] points
      ([rdom]) and the inline reduction [sum] ([hsum]); list lemmas on
      [rdom]; the hint database [halide].
    - [ScalarQ.v]: the [Q] instance, [Proper] instances for setoid
      rewriting under [Qeq], and the algebra of [hsum] over [Q]
      (linearity, exchange of two sums, separability, normalisation,
      bounds).
    - [Kernels.v]: the Kernel Library (lines 5-61), one [Definition] per
      C++ function, and the [KernelInfo] table as a list indexed by the
      enum's value.
    - [Buffer.v]: Halide buffers (dims with min, extent, stride; a flat
      host list; reads and writes returning [option]) and
      [repeat_edge], as the Boundary Handler (lines 68-70, 83-85).
    - [Weights.v]: the Kernel Weight Generator (lines 87-116), in a
      Section whose variables are the generator's parameters; one
      definition serves both axes ([x] and [y] differ only by name).
    - [Resample.v]: the Separable Resampler (lines 118-129): both
      branches of [upsample], the final clamp.
    - [LanczosR.v]: the [R] instance and the Lanczos kernel over the
      reals, against the spec's kernel.
    - [Schedule.v]: the Execution Strategy's loop nest ([schedule],
      lines 132-175): the output's tiles as ShiftInwards splits, the
      parallel loop over tile rows as interleavings of tasks, and the
      stores into the output buffer ([realize]).
    - [Cache.v]: the [compute_root] / [compute_at] directives: each
      intermediate Func stored in a tile-local buffer over the tap window
      of the tile ([realize2], [tap_region]) and loaded by its consumer.
    - [Generator.v]: the class [Resize] (GeneratorParams, Inputs,
      Funcs), [generate] as one record of Funcs, and the condition
      under which Halide's bounds check of the input passes.

    No definition of the pipeline needs fuel: every loop of the program
    is a reduction over an [RDom] of finite extent, or a loop of the
    schedule over a finite range, modelled as a fold over a list, so
    every definition is structurally recursive and total.

    ** Theorems (claim ids C1-C25)
    - Weights (C1, C2, C10, C11, C23, C24): normalised weights sum to 1;
      the unnormalised sum is exactly 1 without widening (box, linear,
      cubic); it is 0 for the box kernel with [upsample] false at scale
      3 (the spec says it never is); the tap window covers the support
      of the linear and cubic kernels; the last tap can fall beyond the
      radius, against the spec's wording, where the kernel is 0; the tap
      count is the native one when upsampling and [taps / s] rounded up
      when downsampling by [s].
    - Resample (C3, C4, C15-C18, C25): the two axis orders give the
      same value, so the order chosen from [upsample] is a choice of
      schedule only; identity at scale 1; the linear kernel upsamples
      by bilinear interpolation at any scale; convex kernels need no
      clamp; nearest-neighbour and area-average behaviour of the box
      kernel at integer factors; flat images are preserved.
    - Schedule and Cache (C5-C7, C13, C14): every interleaving of the
      parallel tile rows stores the pipeline's value at every output
      point (so all executions agree); the intermediates stored per tile
      or per tile row give the value of [output]; an output smaller than
      a tile is rejected; when the height is not a multiple of the tile
      height, two parallel tile rows store the same points (the spec
      says the output is partitioned between workers).
    - Lanczos over R (C8, C9): the code's [sinc] is [sin(pi x) / x],
      without the pi of the normalised sinc, so the kernel jumps at 0
      (value 1 there, more than 3 nearby) and, when downsampling by 3,
      the tap centred on the source pixel is outweighed by its
      neighbour.
    - Boundary and input (C12, C20, C21): every read through
      [repeat_edge] of a well-formed input with a column and a row is
      in bounds, and it reads the nearest edge pixel; all reads of the
      pipeline are in bounds exactly when the input has a column, a row
      and the output's channels, so an empty input fails Halide's
      bounds check (the spec says it gives an empty result).
    - Kernels (C19, C22): partition of unity of the kernels (their
      support, evenness and interpolation at integers are lemmas); the
      parameter table round trip.

    ** Not modelled
    Image I/O, command-line parsing, the generator registration
    ([HALIDE_REGISTER_GENERATOR]) and the GeneratorParams Halide adds to
    every generator (target, auto_schedule, ...) are outside the core;
    the two parameters of [Resize] are modelled as a record.  Floating
    point rounding is not modelled: the theorems are over exact
    arithmetic ([Q], [R]), with [float(M_PI)] taken at its binary32
    value.  Results that depend on NaN or on the conversion of an
    out-of-range float to [int] are not claimed: Halide compiles with
    fast-math flags and LLVM leaves such conversions undefined.
    Parallelism is modelled by the order in which the output points are
    stored (each store atomic; tasks write the same value where tile
    rows overlap).  Vectorisation is not modelled: a [vectorize]
    directive changes how many stores one instruction makes, not which
    points are stored or their values; the stores into the tile-local
    buffers are modelled by their final contents ([Cache.realize2]),
    read once complete.  Halide's bounds inference for the
    intermediates is modelled by the tap windows of Cache.v, not
    derived; its check of the input region is [input_bounds_ok]. *)

From Stdlib Require Import ZArith QArith List Lia.
Import ListNotations.

Declare Scope halide_scope.
Delimit Scope halide_scope with H.

(** The operations the generator applies to float [Expr]s. *)
Class FloatOps (F : Type) := {
  f_lit : Q -> F;             (** a float constant such as [0.5f] *)
  f_of_int : Z -> F;          (** implicit int-to-float conversion *)
  f_add : F -> F -> F;
  f_sub : F -> F -> F;
  f_mul : F -> F -> F;
  f_div : F -> F -> F;
  f_abs : F -> F;
  f_min : F -> F -> F;
  f_max : F -> F -> F;
  f_lt : F -> F -> bool;
  f_le : F -> F -> bool;
  f_eqb : F -> F -> bool;
  f_ceil : F -> Z;            (** [cast<int>(ceil(e))] *)
  f_sin : F -> F;
  f_pi : F                    (** [float(M_PI)] *)
}.

Infix "+!" := f_add (at level 50, left associativity) : halide_scope.
Infix "-!" := f_sub (at level 50, left associativity) : halide_scope.
Infix "*!" := f_mul (at level 40, left associativity) : halide_scope.
Infix "/!" := f_div (at level 40, left associativity) : halide_scope.
Infix "<!" := f_lt (at level 70, no associativity) : halide_scope.
Infix "<=!" := f_le (at level 70, no associativity) : halide_scope.
Infix "==!" := f_eqb (at level 70, no associativity) : halide_scope.

Open Scope halide_scope.

(** Halide's [select(c, t, f)]. *)
Definition select {A : Type} (c : bool) (t f : A) : A := if c then t else f.

Section Ops.
Context {F : Type} `{FloatOps F}.

(** Halide's [clamp(a, lo, hi)], which is [max(min(a, hi), lo)]. *)
Definition clamp (a lo hi : F) : F := f_max (f_min a hi) lo.

(** The points of [RDom r(mn, ext)], in the order of the reduction loop;
    empty when [ext <= 0]. *)
Definition rdom (mn ext : Z) : list Z :=
  map (fun i => (mn + Z.of_nat i)%Z) (seq 0 (Z.to_nat ext)).

(** Halide's inline reduction [sum(e)] over [RDom r(mn, ext)]: an
    accumulator starting at [0.0f] and updated [acc = acc + e(r)] for
    [r] from [mn] upwards. *)
Definition hsum (mn ext : Z) (e : Z -> F) : F :=
  fold_left (fun acc r => acc +! e r) (rdom mn ext) (f_lit 0).

End Ops.

Create HintDb halide.

(** ** Lemmas on [rdom] *)

Lemma rdom_length mn ext : length (rdom mn ext) = Z.to_nat ext.
Proof. unfold rdom. now rewrite length_map, length_seq. Qed.

Lemma in_rdom mn ext r : In r (rdom mn ext) <-> (mn <= r < mn + ext)%Z.
Proof.
  unfold rdom. rewrite in_map_iff. split.
  - intros [i [<- Hi]]. apply in_seq in Hi. lia.
  - intros Hr. exists (Z.to_nat (r - mn)). split; [lia |].
    apply in_seq. lia.
Qed.

Lemma rdom_nonpos mn ext : (ext <= 0)%Z -> rdom mn ext = [].
Proof. intros. unfold rdom. now replace (Z.to_nat ext) with 0%nat by lia. Qed.

Lemma rdom_snoc mn ext :
  (0 <= ext)%Z -> rdom mn (ext + 1) = rdom mn ext ++ [(mn + ext)%Z].
Proof.
  intros Hext. unfold rdom.
  replace (Z.to_nat (ext + 1)) with (Z.to_nat ext + 1)%nat by lia.
  rewrite seq_app, map_app. cbn. do 2 f_equal. lia.
Qed.

Lemma rdom_cons mn ext :
  (0 < ext)%Z -> rdom mn ext = mn :: rdom (mn + 1) (ext - 1).
Proof.
  intros Hext. unfold rdom.
  replace (Z.to_nat ext) with (S (Z.to_nat (ext - 1))) by lia.
  cbn [seq map]. f_equal; [lia |].
  rewrite <- seq_shift, map_map. apply map_ext. intros. lia.
Qed.

Lemma rdom_shift mn ext d :
  rdom (mn + d) ext = map (fun r => (r + d)%Z) (rdom mn ext).
Proof. unfold rdom. rewrite map_map. apply map_ext. intros. lia. Qed.

Lemma nth_error_rdom mn ext i :
  (i < Z.to_nat ext)%nat -> nth_error (rdom mn ext) i = Some (mn + Z.of_nat i)%Z.
Proof.
  intros Hi. unfold rdom. rewrite nth_error_map, nth_error_seq.
  replace (Nat.ltb i _) with true by (symmetry; apply Nat.ltb_lt; exact Hi). reflexivity.
Qed.

(** ** Lemmas on lists *)

(** An element of a concatenation of lists of equal length [n]. *)
Lemma nth_error_concat_uniform {A : Type} (ls : list (list A)) (n i j : nat) :
  Forall (fun l => length l = n) ls -> (j < n)%nat ->
  nth_error (concat ls) (i * n + j) =
  match nth_error ls i with Some l => nth_error l j | None => None end.
Proof.
  intros Hl Hj. revert i. induction Hl as [| l ls Hlen Hls IH]; intros i.
  - now destruct (i * n + j)%nat, i.
  - destruct i as [| i]; cbn [concat nth_error].
    + rewrite nth_error_app1 by lia. reflexivity.
    + rewrite nth_error_app2 by nia.
      replace (S i * n + j - length l)%nat with (i * n + j)%nat by nia. apply IH.
Qed.
