(* ===== verification/ScalarQ.v ===== *)
(** * Exact rational instance of the float interface

    [FloatQ] instantiates [Prelude.FloatOps] with [Q]: float arithmetic
    is idealised as exact rational arithmetic, so every definition of the
    development computes.  [float(M_PI)] is the float32 value of pi,
    13176795 / 2^22, exactly.  [Q] has no sine: [Qsin_taylor] (the Taylor
    polynomial of degree 7) stands in for it, and only the Lanczos kernel
    uses it.  Division by zero yields 0 in [Q] where floats yield NaN; the
    development detects such divisions by theorems on the divisor.

    The file also gives the [Proper] instances that let [rewrite] work
    under [Qeq], and the algebra of the inline reduction [hsum] over [Q]:
    linearity, exchange of two sums, bounds. *)

From Stdlib Require Import ZArith QArith Qround Qabs Qminmax Lqa List Lia.
From Stdlib Require Import Morphisms Setoid.
From S2P Require Import Prelude.
Import ListNotations.
Open Scope halide_scope.

Definition Qsin_taylor (x : Q) : Q :=
  x - x * x * x / 6 + x * x * x * x * x / 120 - x * x * x * x * x * x * x / 5040.

Definition Qlt_bool (x y : Q) : bool := negb (Qle_bool y x).

#[export] Instance FloatQ : FloatOps Q := {|
  f_lit q := q;
  f_of_int := inject_Z;
  f_add := Qplus;
  f_sub := Qminus;
  f_mul := Qmult;
  f_div := Qdiv;
  f_abs := Qabs;
  f_min := Qmin;
  f_max := Qmax;
  f_lt := Qlt_bool;
  f_le := Qle_bool;
  f_eqb := Qeq_bool;
  f_ceil := Qceiling;
  f_sin := Qsin_taylor;
  f_pi := 13176795 # 4194304
|}.

(** Unfold the instance's operations to the [Q] ones. *)
Ltac qops :=
  cbn [FloatQ f_lit f_of_int f_add f_sub f_mul f_div f_abs f_min f_max
       f_lt f_le f_eqb f_ceil f_sin f_pi] in *.

(** Integer constants converted to float, written as [Q] constants so that
    [lra] reads them. *)
Ltac qconst :=
  repeat match goal with
  | |- context [inject_Z (Z.pos ?p)] => change (inject_Z (Z.pos p)) with (Z.pos p # 1)
  | |- context [inject_Z (Z.neg ?p)] => change (inject_Z (Z.neg p)) with (Z.neg p # 1)
  | |- context [inject_Z Z0] => change (inject_Z Z0) with (0 # 1)
  | H : context [inject_Z (Z.pos ?p)] |- _ =>
      change (inject_Z (Z.pos p)) with (Z.pos p # 1) in H
  | H : context [inject_Z (Z.neg ?p)] |- _ =>
      change (inject_Z (Z.neg p)) with (Z.neg p # 1) in H
  | H : context [inject_Z Z0] |- _ => change (inject_Z Z0) with (0 # 1) in H
  end.

(** Divisions by constants, written as multiplications so that [lra]
    reads them. *)
Ltac qdiv_const :=
  unfold Qdiv in *;
  repeat match goal with
  | H : context [Qinv (?a # ?b)] |- _ =>
      let c := eval vm_compute in (Qinv (a # b)) in change (Qinv (a # b)) with c in H
  | |- context [Qinv (?a # ?b)] =>
      let c := eval vm_compute in (Qinv (a # b)) in change (Qinv (a # b)) with c
  end.

Lemma Qabs_gt_cases (x c : Q) : c < Qabs x -> c < x \/ x < - c.
Proof.
  intros Hc. destruct (Qlt_le_dec x 0) as [Hn | Hp].
  - rewrite Qabs_neg in Hc by lra. lra.
  - rewrite Qabs_pos in Hc by lra. lra.
Qed.

(** Remove every [Qabs] of the goal whose sign [lra] decides. *)
Ltac qabs_simpl :=
  repeat match goal with
  | |- context [Qabs ?e] =>
      first [ rewrite (Qabs_pos e) by lra | rewrite (Qabs_neg e) by lra ]
  end.

(** ** Comparisons *)

Lemma Qlt_bool_iff x y : Qlt_bool x y = true <-> x < y.
Proof.
  unfold Qlt_bool. rewrite Bool.negb_true_iff.
  split; intros Hxy.
  - apply Qnot_le_lt. intros Hle. apply Qle_bool_iff in Hle. congruence.
  - destruct (Qle_bool y x) eqn:E; [| reflexivity].
    apply Qle_bool_iff in E. exfalso. apply (Qlt_not_le x y); assumption.
Qed.

Lemma Qlt_bool_false x y : Qlt_bool x y = false <-> y <= x.
Proof.
  unfold Qlt_bool. rewrite Bool.negb_false_iff. apply Qle_bool_iff.
Qed.

Lemma Qle_bool_false x y : Qle_bool x y = false <-> y < x.
Proof.
  split; intros Hxy.
  - apply Qnot_le_lt. intros Hle. apply Qle_bool_iff in Hle. congruence.
  - destruct (Qle_bool x y) eqn:E; [| reflexivity].
    apply Qle_bool_iff in E. exfalso. apply (Qlt_not_le y x); assumption.
Qed.

Lemma Qeq_bool_false x y : Qeq_bool x y = false <-> ~ x == y.
Proof.
  split; intros Hxy.
  - intros He. apply Qeq_bool_iff in He. congruence.
  - destruct (Qeq_bool x y) eqn:E; [| reflexivity].
    apply Qeq_bool_iff in E. contradiction.
Qed.

(** Turn the boolean comparisons of [Q] into propositions. *)
Ltac qbool :=
  repeat match goal with
  | H : Qlt_bool _ _ = true |- _ => apply Qlt_bool_iff in H
  | H : Qlt_bool _ _ = false |- _ => apply Qlt_bool_false in H
  | H : Qle_bool _ _ = true |- _ => apply Qle_bool_iff in H
  | H : Qle_bool _ _ = false |- _ => apply Qle_bool_false in H
  | H : Qeq_bool _ _ = true |- _ => apply Qeq_bool_iff in H
  | H : Qeq_bool _ _ = false |- _ => apply Qeq_bool_false in H
  | H : (_ || _)%bool = true |- _ => apply Bool.orb_true_iff in H; destruct H as [H | H]
  | H : (_ || _)%bool = false |- _ => apply Bool.orb_false_iff in H; destruct H as [? H]
  | H : (_ && _)%bool = true |- _ => apply Bool.andb_true_iff in H; destruct H as [? H]
  | H : (_ && _)%bool = false |- _ => apply Bool.andb_false_iff in H; destruct H as [H | H]
  end.

(** Case on every comparison of a [select] in the goal. *)
Ltac case_select :=
  unfold select;
  repeat match goal with
  | |- context [if ?c then _ else _] =>
      let E := fresh "E" in destruct c eqn:E; qbool
  end.

#[export] Instance Qlt_bool_Proper : Proper (Qeq ==> Qeq ==> eq) Qlt_bool.
Proof.
  intros x x' Hx y y' Hy.
  destruct (Qlt_bool x y) eqn:E1, (Qlt_bool x' y') eqn:E2; qbool;
    try reflexivity; exfalso; rewrite Hx, Hy in *; lra.
Qed.

#[export] Instance Qle_bool_Proper : Proper (Qeq ==> Qeq ==> eq) Qle_bool.
Proof.
  intros x x' Hx y y' Hy.
  destruct (Qle_bool x y) eqn:E1, (Qle_bool x' y') eqn:E2; qbool;
    try reflexivity; exfalso; rewrite Hx, Hy in *; lra.
Qed.

#[export] Instance Qeq_bool_Proper : Proper (Qeq ==> Qeq ==> eq) Qeq_bool.
Proof.
  intros x x' Hx y y' Hy.
  destruct (Qeq_bool x y) eqn:E1, (Qeq_bool x' y') eqn:E2; qbool;
    try reflexivity; exfalso; rewrite Hx, Hy in *; tauto.
Qed.

#[export] Instance select_Proper {A} (R : relation A) :
  Proper (eq ==> R ==> R ==> R) (@select A).
Proof. intros c c' <- t t' Ht f f' Hf. destruct c; assumption. Qed.

#[export] Instance Qsin_taylor_Proper : Proper (Qeq ==> Qeq) Qsin_taylor.
Proof. intros x y Hxy. unfold Qsin_taylor. now rewrite Hxy. Qed.

(** ** Ceiling *)

Lemma Qceiling_spec x (z : Z) :
  Qceiling x = z <-> inject_Z (z - 1) < x /\ x <= inject_Z z.
Proof.
  split.
  - intros <-. split; [apply Qceiling_lt | apply Qle_ceiling].
  - intros [Hlo Hhi].
    assert (Qceiling x <= z)%Z.
    { rewrite <- (Qceiling_Z z). now apply Qceiling_resp_le. }
    assert (z - 1 < Qceiling x)%Z.
    { pose proof (Qle_ceiling x) as Hc.
      assert (inject_Z (z - 1) < inject_Z (Qceiling x)) as Hq by lra.
      now rewrite <- Zlt_Qlt in Hq. }
    lia.
Qed.

Lemma inject_Z_sub (a b : Z) : inject_Z (a - b) == inject_Z a - inject_Z b.
Proof. unfold Z.sub, Qminus. now rewrite inject_Z_plus, inject_Z_opp. Qed.

Lemma Qdiv_le_mult (a b c : Q) : 0 < c -> a / c <= b -> a <= b * c.
Proof.
  intros Hc Hab. setoid_replace a with (a / c * c) by (field; lra).
  apply Qmult_le_compat_r; lra.
Qed.

Lemma Qceiling_int_add (x : Q) (n : Z) :
  Qceiling (x + inject_Z n) = (Qceiling x + n)%Z.
Proof.
  apply Qceiling_spec.
  pose proof (Qceiling_lt x). pose proof (Qle_ceiling x).
  replace (Qceiling x + n - 1)%Z with ((Qceiling x - 1) + n)%Z by lia.
  rewrite !inject_Z_plus. split; lra.
Qed.

(** ** Clamp *)

Lemma clamp_Q_range (v : Q) : 0 <= clamp v 0 1 <= 1.
Proof.
  unfold clamp. qops.
  destruct (Q.min_spec v 1) as [[? ->] | [? ->]];
  destruct (Q.max_spec v 0) as [[? ?] | [? ?]];
  split; try apply Q.le_max_r;
  apply Q.max_lub; lra.
Qed.

Lemma clamp_Q_id (v : Q) : 0 <= v <= 1 -> clamp v 0 1 == v.
Proof.
  intros [H0 H1]. unfold clamp. qops.
  rewrite (Q.min_l v 1 H1). now apply Q.max_l.
Qed.

Lemma clamp_Q_above (v : Q) : 1 <= v -> clamp v 0 1 == 1.
Proof.
  intros H1. unfold clamp. qops.
  rewrite (Q.min_r v 1 H1). apply Q.max_l. discriminate.
Qed.

Lemma clamp_Q_below (v : Q) : v <= 0 -> clamp v 0 1 == 0.
Proof.
  intros H0. unfold clamp. qops.
  rewrite Q.min_l by lra. now apply Q.max_r.
Qed.

#[export] Instance clamp_Q_Proper : Proper (Qeq ==> Qeq ==> Qeq ==> Qeq) (@clamp Q _).
Proof.
  intros a a' Ha l l' Hl h h' Hh. unfold clamp. qops.
  now rewrite Ha, Hl, Hh.
Qed.

(** ** The inline reduction over [Q] *)

Lemma fold_sum_acc (l : list Z) (e : Z -> Q) (a : Q) :
  fold_left (fun acc r => acc + e r) l a == a + fold_left (fun acc r => acc + e r) l 0.
Proof.
  revert a. induction l as [| r l IH]; intros a; cbn; [ring |].
  rewrite IH, (IH (0 + e r)). ring.
Qed.

Lemma hsum_nil mn ext (e : Z -> Q) : (ext <= 0)%Z -> hsum mn ext e == 0.
Proof. intros. unfold hsum. now rewrite rdom_nonpos. Qed.

Lemma hsum_snoc mn ext (e : Z -> Q) :
  (0 <= ext)%Z -> hsum mn (ext + 1) e == hsum mn ext e + e (mn + ext)%Z.
Proof.
  intros Hext. unfold hsum. rewrite rdom_snoc by assumption.
  rewrite fold_left_app. reflexivity.
Qed.

Lemma hsum_cons mn ext (e : Z -> Q) :
  (0 < ext)%Z -> hsum mn ext e == e mn + hsum (mn + 1) (ext - 1) e.
Proof.
  intros Hext. unfold hsum. rewrite rdom_cons by assumption. cbn.
  qops. rewrite fold_sum_acc. ring.
Qed.

Lemma hsum_ext mn ext (e e' : Z -> Q) :
  (forall r, (mn <= r < mn + ext)%Z -> e r == e' r) ->
  hsum mn ext e == hsum mn ext e'.
Proof.
  intros Hee. unfold hsum. qops.
  assert (Hin : forall r, In r (rdom mn ext) -> e r == e' r)
    by (intros r Hr; apply Hee, in_rdom, Hr).
  generalize (0 : Q) as a. induction (rdom mn ext) as [| r l IH]; intros a; cbn.
  - reflexivity.
  - rewrite fold_sum_acc, (fold_sum_acc l e').
    rewrite IH by (intros; apply Hin; now right).
    rewrite (Hin r) by now left. reflexivity.
Qed.

#[export] Instance hsum_Proper mn ext :
  Proper (pointwise_relation Z Qeq ==> Qeq) (@hsum Q _ mn ext).
Proof. intros e e' Hee. apply hsum_ext. intros r _. apply Hee. Qed.

(** [hsum] as a right fold, the form the algebraic lemmas use. *)
Lemma hsum_fold_right mn ext (e : Z -> Q) :
  hsum mn ext e == fold_right (fun r acc => e r + acc) 0 (rdom mn ext).
Proof.
  unfold hsum. qops. induction (rdom mn ext) as [| r l IH]; cbn; [reflexivity |].
  rewrite fold_sum_acc, IH. ring.
Qed.

Lemma hsum_scale mn ext (c : Q) (e : Z -> Q) :
  hsum mn ext (fun r => c * e r) == c * hsum mn ext e.
Proof.
  rewrite !hsum_fold_right.
  induction (rdom mn ext) as [| r l IH]; cbn; [ring |]. rewrite IH. ring.
Qed.

Lemma hsum_div mn ext (c : Q) (e : Z -> Q) :
  hsum mn ext (fun r => e r / c) == hsum mn ext e / c.
Proof.
  rewrite !hsum_fold_right. unfold Qdiv.
  induction (rdom mn ext) as [| r l IH]; cbn; [ring |]. rewrite IH. ring.
Qed.

Lemma hsum_add mn ext (e e' : Z -> Q) :
  hsum mn ext (fun r => e r + e' r) == hsum mn ext e + hsum mn ext e'.
Proof.
  rewrite !hsum_fold_right.
  induction (rdom mn ext) as [| r l IH]; cbn; [ring |]. rewrite IH. ring.
Qed.

Lemma hsum_const_zero mn ext :
  hsum mn ext (fun _ => 0) == 0.
Proof.
  rewrite hsum_fold_right. induction (rdom mn ext) as [| r l IH]; cbn; [ring |].
  rewrite IH. ring.
Qed.

Lemma fold_right_hsum_exchange (l : list Z) b m (f : Z -> Z -> Q) :
  fold_right (fun i acc => hsum b m (f i) + acc) 0 l ==
  hsum b m (fun j => fold_right (fun i acc => f i j + acc) 0 l).
Proof.
  induction l as [| i l IH]; cbn.
  - symmetry. apply hsum_const_zero.
  - rewrite IH, hsum_add. reflexivity.
Qed.

(** Exchange of two nested sums: the algebraic fact behind the freedom to
    resample along x or along y first. *)
Lemma hsum_exchange a n b m (f : Z -> Z -> Q) :
  hsum a n (fun i => hsum b m (fun j => f i j)) ==
  hsum b m (fun j => hsum a n (fun i => f i j)).
Proof.
  rewrite hsum_fold_right, fold_right_hsum_exchange.
  apply hsum_ext. intros j _. symmetry. apply hsum_fold_right.
Qed.

(** Separability: two weighted 1-D sums commute, whichever axis is
    summed first. *)
Lemma hsum_separable a n b m (kx ky : Z -> Q) (f : Z -> Z -> Q) :
  hsum b m (fun j => ky j * hsum a n (fun i => kx i * f i j)) ==
  hsum a n (fun i => kx i * hsum b m (fun j => ky j * f i j)).
Proof.
  setoid_rewrite <- hsum_scale. rewrite hsum_exchange.
  apply hsum_ext. intros i _. apply hsum_ext. intros j _. ring.
Qed.

(** Dividing every term by a nonzero sum makes the terms sum to 1. *)
Lemma hsum_normalize mn ext (e : Z -> Q) :
  ~ hsum mn ext e == 0 -> hsum mn ext (fun r => e r / hsum mn ext e) == 1.
Proof. intros H. rewrite hsum_div. field. exact H. Qed.

Lemma fold_sum_nonneg (l : list Z) (e : Z -> Q) :
  (forall r, In r l -> 0 <= e r) -> 0 <= fold_right (fun r acc => e r + acc) 0 l.
Proof.
  induction l as [| r l IH]; intros Hin; cbn; [lra |].
  assert (0 <= e r) by (apply Hin; now left).
  assert (0 <= fold_right (fun r acc => e r + acc) 0 l) by (apply IH; intros; apply Hin; now right).
  lra.
Qed.

Lemma fold_sum_ge_term (l : list Z) (e : Z -> Q) (r0 : Z) :
  (forall r, In r l -> 0 <= e r) -> In r0 l ->
  e r0 <= fold_right (fun r acc => e r + acc) 0 l.
Proof.
  induction l as [| r l IH]; intros Hin Hr0; cbn; [contradiction |].
  assert (0 <= e r) by (apply Hin; now left).
  assert (0 <= fold_right (fun r acc => e r + acc) 0 l)
    by (apply fold_sum_nonneg; intros; apply Hin; now right).
  destruct Hr0 as [-> | Hr0]; [lra |].
  assert (e r0 <= fold_right (fun r acc => e r + acc) 0 l)
    by (apply IH; [intros; apply Hin; now right | exact Hr0]).
  lra.
Qed.

Lemma hsum_nonneg mn ext (e : Z -> Q) :
  (forall r, (mn <= r < mn + ext)%Z -> 0 <= e r) -> 0 <= hsum mn ext e.
Proof.
  intros He. rewrite hsum_fold_right. apply fold_sum_nonneg.
  intros r Hr. apply He, in_rdom, Hr.
Qed.

(** A sum of non-negative terms is at least each of its terms. *)
Lemma hsum_ge_term mn ext (e : Z -> Q) (r0 : Z) :
  (forall r, (mn <= r < mn + ext)%Z -> 0 <= e r) ->
  (mn <= r0 < mn + ext)%Z ->
  e r0 <= hsum mn ext e.
Proof.
  intros He Hr0. rewrite hsum_fold_right. apply fold_sum_ge_term.
  - intros r Hr. apply He, in_rdom, Hr.
  - apply in_rdom, Hr0.
Qed.

(** Prove an integer (in)equality from facts about its image in [Q]. *)
Ltac zq :=
  match goal with
  | |- (_ < _)%Z => rewrite Zlt_Qlt
  | |- (_ <= _)%Z => rewrite Zle_Qle
  | |- (_ = _)%Z => apply inject_Z_injective
  end;
  rewrite ?inject_Z_plus, ?inject_Z_sub, ?inject_Z_mult, ?inject_Z_opp; qconst.

Lemma hsum_single_aux mn (e : Z -> Q) (r0 : Z) (N : nat) :
  (forall r, (mn <= r < mn + Z.of_nat N)%Z -> r <> r0 -> e r == 0) ->
  hsum mn (Z.of_nat N) e ==
  if ((mn <=? r0) && (r0 <? mn + Z.of_nat N))%Z then e r0 else 0.
Proof.
  induction N as [| N IH]; intros He.
  - rewrite hsum_nil by lia. change (Z.of_nat 0) with 0%Z.
    replace ((mn <=? r0) && (r0 <? mn + 0))%Z with false; [reflexivity |].
    symmetry. apply andb_false_iff. destruct (Z.leb_spec mn r0); [right | left]; lia.
  - rewrite Nat2Z.inj_succ, <- Z.add_1_r, hsum_snoc by lia.
    rewrite IH by (intros r Hr Hne; apply He; lia).
    destruct (Z.eq_dec r0 (mn + Z.of_nat N)) as [-> | Hne].
    + replace ((mn <=? mn + Z.of_nat N) && (mn + Z.of_nat N <? mn + Z.of_nat N))%Z
        with false by (symmetry; apply andb_false_iff; right; apply Z.ltb_ge; lia).
      replace ((mn <=? mn + Z.of_nat N) && (mn + Z.of_nat N <? mn + (Z.of_nat N + 1)))%Z
        with true by (symmetry; apply andb_true_iff; split; [apply Z.leb_le | apply Z.ltb_lt]; lia).
      ring.
    + rewrite (He (mn + Z.of_nat N)%Z) by lia.
      replace ((r0 <? mn + (Z.of_nat N + 1)))%Z with (r0 <? mn + Z.of_nat N)%Z
        by (destruct (Z.ltb_spec r0 (mn + Z.of_nat N)), (Z.ltb_spec r0 (mn + (Z.of_nat N + 1)));
            lia).
      ring.
Qed.

(** A sum whose terms vanish except at [r0] is its [r0]-th term. *)
Lemma hsum_single mn ext (e : Z -> Q) (r0 : Z) :
  (mn <= r0 < mn + ext)%Z ->
  (forall r, (mn <= r < mn + ext)%Z -> r <> r0 -> e r == 0) ->
  hsum mn ext e == e r0.
Proof.
  intros Hr0 He. replace ext with (Z.of_nat (Z.to_nat ext)) in * by lia.
  rewrite hsum_single_aux by exact He.
  replace ((mn <=? r0) && (r0 <? mn + Z.of_nat (Z.to_nat ext)))%Z with true
    by (symmetry; apply andb_true_iff; split; [apply Z.leb_le | apply Z.ltb_lt]; lia).
  reflexivity.
Qed.

(** A weighted sum with non-negative weights summing to 1 lies between
    the bounds of the summed values. *)
Lemma hsum_convex mn ext (w a : Z -> Q) (lo hi : Q) :
  (forall r, (mn <= r < mn + ext)%Z -> 0 <= w r) ->
  hsum mn ext w == 1 ->
  (forall r, (mn <= r < mn + ext)%Z -> lo <= a r <= hi) ->
  lo <= hsum mn ext (fun r => w r * a r) <= hi.
Proof.
  intros Hw Hs Ha.
  assert (Hlo : hsum mn ext (fun r => w r * (a r - lo)) ==
                hsum mn ext (fun r => w r * a r) - lo * hsum mn ext w).
  { rewrite <- hsum_scale. unfold Qminus.
    rewrite <- (hsum_scale mn ext (-1)), <- hsum_add.
    apply hsum_ext. intros. ring. }
  assert (Hhi : hsum mn ext (fun r => w r * (hi - a r)) ==
                hi * hsum mn ext w - hsum mn ext (fun r => w r * a r)).
  { rewrite <- hsum_scale. unfold Qminus.
    rewrite <- (hsum_scale mn ext (-1) (fun r => w r * a r)), <- hsum_add.
    apply hsum_ext. intros. ring. }
  assert (0 <= hsum mn ext (fun r => w r * (a r - lo))).
  { apply hsum_nonneg. intros r Hr. specialize (Ha r Hr). specialize (Hw r Hr).
    apply Qmult_le_0_compat; lra. }
  assert (0 <= hsum mn ext (fun r => w r * (hi - a r))).
  { apply hsum_nonneg. intros r Hr. specialize (Ha r Hr). specialize (Hw r Hr).
    apply Qmult_le_0_compat; lra. }
  rewrite Hs in Hlo, Hhi. split; lra.
Qed.

(** A sum of [ext] equal terms. *)
Lemma hsum_const mn ext (c : Q) :
  (0 <= ext)%Z -> hsum mn ext (fun _ => c) == inject_Z ext * c.
Proof.
  intros Hext. replace ext with (Z.of_nat (Z.to_nat ext)) by lia.
  induction (Z.to_nat ext) as [| N IH].
  - rewrite hsum_nil by lia. cbn. ring.
  - rewrite Nat2Z.inj_succ, <- Z.add_1_r, hsum_snoc, IH by lia.
    rewrite inject_Z_plus. ring.
Qed.
