(* ===== verification/Kernels.v ===== *)
(** * Kernel Library (resize_generator.cpp, lines 5-61)

    The enum [InterpolationType], the four interpolation kernels, the
    [KernelInfo] table that gives each kernel its name and native tap
    count, and the name-to-enum map of the generator parameter
    [interpolation_type].  The kernels are generic in [FloatOps]; the
    theorems are over the exact instance [Q]: every kernel vanishes
    outside its radius, the box, linear and cubic kernels are even, the
    cubic kernel is interpolating, the box, linear and cubic kernels are
    partitions of unity over integer shifts, and the parameter map and
    the table agree on the kernel names. *)

From Stdlib Require Import ZArith QArith Qround Qabs Qminmax Lqa List Lia String.
From Stdlib Require Import Morphisms Setoid.
From S2P Require Import Prelude ScalarQ.
Import ListNotations.
Local Open Scope string_scope.
Open Scope halide_scope.

(** [enum InterpolationType { Box, Linear, Cubic, Lanczos }]. *)
Inductive InterpolationType := Box | Linear | Cubic | Lanczos.

Definition InterpolationType_eq_dec (a b : InterpolationType) : {a = b} + {a <> b}.
Proof. decide equality. Defined.

(** The enum's integer value, which indexes [kernel_info]. *)
Definition interpolation_index (t : InterpolationType) : nat :=
  match t with Box => 0 | Linear => 1 | Cubic => 2 | Lanczos => 3 end.

(** The constant [float a = -0.5f] of [kernel_cubic]. *)
Definition cubic_a : Q := -1 # 2.

Section Kernels.
Context {F : Type} `{FloatOps F}.

Definition kernel_box (x : F) : F :=
  let xx := f_abs x in
  select (xx <=! f_lit (1 # 2)) (f_lit 1) (f_lit 0).

Definition kernel_linear (x : F) : F :=
  let xx := f_abs x in
  select (xx <! f_lit 1) (f_lit 1 -! xx) (f_lit 0).

(** The coefficients [a + 2.0f], [5 * a], ... are C++ float constants,
    computed before they meet an [Expr]. *)
Definition kernel_cubic (x : F) : F :=
  let xx := f_abs x in
  let xx2 := xx *! xx in
  let xx3 := xx2 *! xx in
  select (xx <! f_lit 1)
    (f_lit (cubic_a + 2) *! xx3 -! f_lit (cubic_a + 3) *! xx2 +! f_of_int 1)
    (select (xx <! f_lit 2)
       (f_lit cubic_a *! xx3 -! f_lit (5 * cubic_a) *! xx2
          +! f_lit (8 * cubic_a) *! xx -! f_lit (4 * cubic_a))
       (f_lit 0)).

(** [sinc(x) = sin(float(M_PI) * x) / x]: note the missing factor pi in
    the denominator. *)
Definition sinc (x : F) : F := f_sin (f_pi *! x) /! x.

Definition kernel_lanczos (x : F) : F :=
  let value := sinc x *! sinc (x /! f_of_int 3) in
  let value := select (x ==! f_lit 0) (f_lit 1) value in
  let value := select (orb (f_of_int 3 <! x) (x <! f_of_int (-3))) (f_lit 0) value in
  value.

(** The struct [KernelInfo]: a name, a native tap count and a kernel function. *)
Record KernelInfo := {
  name : string;
  taps : Z;
  kernel : F -> F
}.

(** [static KernelInfo kernel_info[]]. *)
Definition kernel_info_table : list KernelInfo :=
  [ {| name := "box"; taps := 1; kernel := kernel_box |};
    {| name := "linear"; taps := 2; kernel := kernel_linear |};
    {| name := "cubic"; taps := 4; kernel := kernel_cubic |};
    {| name := "lanczos"; taps := 6; kernel := kernel_lanczos |} ].

(** [kernel_info[interpolation_type]]: the array indexed by the enum. *)
Definition kernel_info (t : InterpolationType) : KernelInfo :=
  nth (interpolation_index t) kernel_info_table
      {| name := "box"; taps := 1; kernel := kernel_box |}.

End Kernels.

Arguments KernelInfo : clear implicits.

(** The generator parameter's map from names to enum values, with the
    default [Cubic]; an unknown name is rejected (no value). *)
Definition interpolation_type_names : list (string * InterpolationType) :=
  [("box", Box); ("linear", Linear); ("cubic", Cubic); ("lanczos", Lanczos)].

Definition interpolation_type_default : InterpolationType := Cubic.

Definition parse_interpolation_type (s : string) : option InterpolationType :=
  match find (fun p => String.eqb (fst p) s) interpolation_type_names with
  | Some (_, t) => Some t
  | None => None
  end.

(** ** Lemmas over [Q] *)

Lemma kernel_info_taps (t : InterpolationType) :
  taps (kernel_info (F := Q) t) =
  match t with Box => 1 | Linear => 2 | Cubic => 4 | Lanczos => 6 end%Z.
Proof. now destruct t. Qed.

Lemma kernel_info_taps_pos (t : InterpolationType) : (1 <= taps (kernel_info (F := Q) t))%Z.
Proof. destruct t; cbn; lia. Qed.

#[export] Hint Resolve kernel_info_taps_pos : halide.

#[export] Instance kernel_box_Proper : Proper (Qeq ==> Qeq) (@kernel_box Q _).
Proof. intros x y Hxy. unfold kernel_box. qops. now rewrite Hxy. Qed.

#[export] Instance kernel_linear_Proper : Proper (Qeq ==> Qeq) (@kernel_linear Q _).
Proof. intros x y Hxy. unfold kernel_linear. qops. now rewrite Hxy. Qed.

#[export] Instance kernel_cubic_Proper : Proper (Qeq ==> Qeq) (@kernel_cubic Q _).
Proof. intros x y Hxy. unfold kernel_cubic. qops. now rewrite Hxy. Qed.

#[export] Instance kernel_lanczos_Proper : Proper (Qeq ==> Qeq) (@kernel_lanczos Q _).
Proof. intros x y Hxy. unfold kernel_lanczos, sinc. qops. now rewrite Hxy. Qed.

#[export] Instance kernel_Proper (t : InterpolationType) :
  Proper (Qeq ==> Qeq) (kernel (kernel_info (F := Q) t)).
Proof. destruct t; cbn; typeclasses eauto. Qed.

(** The kernels in closed form, one lemma per piece. *)
Lemma box_inside (x : Q) : Qabs x <= 1 # 2 -> kernel_box x == 1.
Proof. intros Hx. unfold kernel_box. qops. case_select; lra. Qed.

Lemma box_outside (x : Q) : 1 # 2 < Qabs x -> kernel_box x == 0.
Proof. intros Hx. unfold kernel_box. qops. case_select; lra. Qed.

Lemma linear_inside (x : Q) : Qabs x <= 1 -> kernel_linear x == 1 - Qabs x.
Proof. intros Hx. unfold kernel_linear. qops. case_select; lra. Qed.

Lemma linear_outside (x : Q) : 1 <= Qabs x -> kernel_linear x == 0.
Proof. intros Hx. unfold kernel_linear. qops. case_select; lra. Qed.

Lemma cubic_inside (x : Q) :
  Qabs x <= 1 ->
  kernel_cubic x == (3 # 2) * Qabs x ^ 3 - (5 # 2) * Qabs x ^ 2 + 1.
Proof.
  intros Hx. unfold kernel_cubic, cubic_a. qops.
  case_select; [ring | | lra].
  assert (Qabs x == 1) as -> by lra. ring.
Qed.

Lemma cubic_middle (x : Q) :
  1 <= Qabs x <= 2 ->
  kernel_cubic x == -(1 # 2) * Qabs x ^ 3 + (5 # 2) * Qabs x ^ 2 - 4 * Qabs x + 2.
Proof.
  intros Hx. unfold kernel_cubic, cubic_a. qops.
  case_select; [| ring |].
  - assert (Qabs x == 1) as -> by lra. ring.
  - assert (Qabs x == 2) as -> by lra. ring.
Qed.

Lemma cubic_outside (x : Q) : 2 <= Qabs x -> kernel_cubic x == 0.
Proof. intros Hx. unfold kernel_cubic. qops. case_select; lra. Qed.

Lemma lanczos_zero : kernel_lanczos (F := Q) 0 == 1.
Proof. reflexivity. Qed.

Lemma lanczos_outside (x : Q) : 3 < Qabs x -> kernel_lanczos x == 0.
Proof.
  intros Hx. unfold kernel_lanczos. qops. qconst.
  destruct (Qabs_gt_cases x 3 Hx); case_select; lra.
Qed.

Lemma cubic_closed_outside (x : Q) : 2 <= Qabs x -> kernel_cubic x == 0.
Proof. apply cubic_outside. Qed.

(** The sums of four and two consecutive terms, unrolled. *)
Lemma hsum_0_4 (e : Z -> Q) : hsum 0 4 e == e 0%Z + e 1%Z + e 2%Z + e 3%Z.
Proof. unfold hsum. change (rdom 0 4) with [0; 1; 2; 3]%Z. cbn. ring. Qed.

Lemma hsum_0_2 (e : Z -> Q) : hsum 0 2 e == e 0%Z + e 1%Z.
Proof. unfold hsum. change (rdom 0 2) with [0; 1]%Z. cbn. ring. Qed.

Lemma hsum_0_1 (e : Z -> Q) : hsum 0 1 e == e 0%Z.
Proof. unfold hsum. change (rdom 0 1) with [0]%Z. cbn. ring. Qed.

(** An integer converted to float, by its absolute value. *)
Lemma Qabs_inject_Z_cases (n : Z) :
  (n = 0%Z /\ Qabs (inject_Z n) == 0) \/
  ((n = 1 \/ n = -1)%Z /\ Qabs (inject_Z n) == 1) \/
  ((n >= 2 \/ n <= -2)%Z /\ 2 <= Qabs (inject_Z n)).
Proof.
  destruct (Z.eq_dec n 0) as [-> | H0]; [left; split; reflexivity |].
  destruct (Z.eq_dec n 1) as [-> | H1]; [right; left; split; [left |]; reflexivity |].
  destruct (Z.eq_dec n (-1)) as [-> | H2]; [right; left; split; [right |]; reflexivity |].
  right; right. split; [lia |].
  destruct (Z_lt_le_dec n 0) as [Hn | Hn].
  - rewrite Qabs_neg by (rewrite Zlt_Qlt in Hn; apply Qlt_le_weak, Hn).
    assert (n <= -2)%Z as Hle by lia. rewrite Zle_Qle in Hle. qconst. lra.
  - rewrite Qabs_pos by (rewrite Zle_Qle in Hn; apply Hn).
    assert (2 <= n)%Z as Hle by lia. rewrite Zle_Qle in Hle. qconst. lra.
Qed.

(** The kernels other than Lanczos are 1 at 0 ... *)
Lemma kernel_at_zero (t : InterpolationType) :
  t <> Lanczos -> kernel (kernel_info t) 0 == 1.
Proof. intros Ht. destruct t; try congruence; reflexivity. Qed.

(** ... and 0 at every other integer. *)
Lemma kernel_int_nonzero (t : InterpolationType) (n : Z) :
  t <> Lanczos -> n <> 0%Z -> kernel (kernel_info t) (inject_Z n) == 0.
Proof.
  intros Ht Hn0.
  destruct (Qabs_inject_Z_cases n) as [[-> _] | [[Hn Ha] | [Hn Ha]]]; [congruence | |];
    destruct t; try congruence; cbn [kernel_info nth kernel_info_table kernel interpolation_index].
  - apply box_outside. rewrite Ha. reflexivity.
  - apply linear_outside. rewrite Ha. lra.
  - rewrite cubic_middle by (rewrite Ha; lra). rewrite Ha. ring.
  - apply box_outside. lra.
  - apply linear_outside. lra.
  - apply cubic_outside. lra.
Qed.

(** The partition of unity, kernel by kernel: the weights at the integer
    shifts of a first offset [t0] in [-taps/2, -taps/2 + 1). *)
Lemma box_partition (t0 : Q) :
  -(1 # 2) <= t0 < 1 # 2 -> hsum 0 1 (fun k => kernel_box (t0 + inject_Z k)) == 1.
Proof.
  intros Ht0. rewrite hsum_0_1. apply box_inside. qconst. apply Qabs_Qle_condition. lra.
Qed.

Lemma linear_partition (t0 : Q) :
  -1 <= t0 < 0 -> hsum 0 2 (fun k => kernel_linear (t0 + inject_Z k)) == 1.
Proof.
  intros Ht0. rewrite hsum_0_2. qconst.
  rewrite !linear_inside by (qabs_simpl; lra). qabs_simpl. ring.
Qed.

Lemma cubic_partition (t0 : Q) :
  -2 <= t0 < -1 -> hsum 0 4 (fun k => kernel_cubic (t0 + inject_Z k)) == 1.
Proof.
  intros Ht0. rewrite hsum_0_4. qconst.
  rewrite (cubic_middle (t0 + 0)), (cubic_inside (t0 + 1)), (cubic_inside (t0 + 2)),
    (cubic_middle (t0 + 3)) by (qabs_simpl; lra).
  qabs_simpl. ring.
Qed.

(** ** Properties of the Kernel Library *)

(** Every kernel of the table vanishes outside its radius: for
    [|x| > taps/2] the weight is 0 (box 1/2, linear 1, cubic 2,
    lanczos 3), whatever the sine. *)
Lemma kernel_support (t : InterpolationType) (x : Q) :
  (1 # 2) * inject_Z (taps (kernel_info t)) < Qabs x ->
  kernel (kernel_info t) x == 0.
Proof.
  destruct t; cbn [kernel_info nth kernel_info_table kernel taps interpolation_index];
    qconst; intros Hx.
  - apply box_outside. lra.
  - apply linear_outside. lra.
  - apply cubic_outside. lra.
  - apply lanczos_outside. lra.
Qed.

(** The linear and cubic kernels also vanish on the boundary of their
    support. *)
Lemma kernel_support_closed (t : InterpolationType) (x : Q) :
  t = Linear \/ t = Cubic ->
  (1 # 2) * inject_Z (taps (kernel_info t)) <= Qabs x ->
  kernel (kernel_info t) x == 0.
Proof.
  intros [-> | ->]; cbn [kernel_info nth kernel_info_table kernel taps interpolation_index];
    qconst; intros Hx.
  - apply linear_outside. lra.
  - apply cubic_outside. lra.
Qed.

(** The box, linear and cubic kernels are even functions. *)
Lemma kernel_even (t : InterpolationType) (x : Q) :
  t <> Lanczos ->
  kernel (kernel_info t) (- x) == kernel (kernel_info t) x.
Proof.
  intros Ht.
  destruct t; cbn [kernel_info nth kernel_info_table kernel interpolation_index];
    try congruence;
    [unfold kernel_box | unfold kernel_linear | unfold kernel_cubic]; qops;
    now rewrite Qabs_opp.
Qed.

(** The box, linear and cubic kernels interpolate: at an integer
    offset [n] the weight is 1 when [n = 0] and 0 otherwise. *)
Lemma kernel_interpolating (t : InterpolationType) (n : Z) :
  t <> Lanczos ->
  kernel (kernel_info t) (inject_Z n) == if Z.eqb n 0 then 1 else 0.
Proof.
  intros Ht. destruct (Z.eqb_spec n 0) as [-> | Hn].
  - apply kernel_at_zero, Ht.
  - apply kernel_int_nonzero; assumption.
Qed.

(** C19: the box, linear and cubic kernels are partitions of unity: the
    weights at the [taps] integer shifts of an offset [t0] in
    [-taps/2, -taps/2 + 1) sum to exactly 1.  This is the tap sum of the
    weight generator whenever the kernel is not widened. *)
Theorem kernel_partition_of_unity (t : InterpolationType) (t0 : Q) :
  t <> Lanczos ->
  -(1 # 2) * inject_Z (taps (kernel_info t)) <= t0 <
    -(1 # 2) * inject_Z (taps (kernel_info t)) + 1 ->
  hsum 0 (taps (kernel_info t)) (fun k => kernel (kernel_info t) (t0 + inject_Z k)) == 1.
Proof.
  intros Ht. destruct t; try congruence;
    cbn [kernel_info nth kernel_info_table kernel taps interpolation_index]; qconst; intros Ht0;
    [apply box_partition | apply linear_partition | apply cubic_partition]; lra.
Qed.

(** C22: the generator parameter and the [kernel_info] table agree: a
    name is accepted exactly when it is the name of a table entry, and
    it selects that entry's enum value. *)
Theorem parse_interpolation_type_spec (s : string) (t : InterpolationType) :
  parse_interpolation_type s = Some t <-> s = name (kernel_info (F := Q) t).
Proof.
  split.
  - unfold parse_interpolation_type, interpolation_type_names. cbn [find fst].
    destruct (String.eqb "box" s) eqn:E1;
      [apply String.eqb_eq in E1; intros [= <-]; now subst |].
    destruct (String.eqb "linear" s) eqn:E2;
      [apply String.eqb_eq in E2; intros [= <-]; now subst |].
    destruct (String.eqb "cubic" s) eqn:E3;
      [apply String.eqb_eq in E3; intros [= <-]; now subst |].
    destruct (String.eqb "lanczos" s) eqn:E4;
      [apply String.eqb_eq in E4; intros [= <-]; now subst |].
    discriminate.
  - intros ->. now destruct t.
Qed.

(** ** Witnesses *)

Lemma kernel_partition_of_unity_witness :
  Cubic <> Lanczos /\
  -(1 # 2) * inject_Z (taps (kernel_info (F := Q) Cubic)) <= -(7 # 4) <
    -(1 # 2) * inject_Z (taps (kernel_info (F := Q) Cubic)) + 1 /\
  hsum 0 (taps (kernel_info Cubic)) (fun k => kernel (kernel_info Cubic) (-(7 # 4) + inject_Z k)) == 1.
Proof.
  split; [discriminate |]. split; [split; vm_compute; try discriminate; reflexivity |].
  apply kernel_partition_of_unity; [discriminate |].
  split; vm_compute; try discriminate; reflexivity.
Defined.
