(* ===== verification/Buffer.v ===== *)
(** * Buffers and the Boundary Handler (resize_generator.cpp, lines 68-70, 83-85)

    A Halide buffer is a list of dimensions, each with a [min], an
    [extent] and a [stride], over a flat host array; the element at
    coordinates [c] lives at offset [sum_i (c_i - min_i) * stride_i].
    [buf_read] returns [None] for coordinates outside the buffer (an
    out-of-bounds access, undefined behaviour in the compiled pipeline).
    [buf_write] is the store the output realisation performs.

    [repeat_edge] is Halide's [BoundaryConditions::repeat_edge] (library
    code, modelled from its documentation): the i-th argument is clamped
    into the i-th given range, later arguments pass unchanged.  [clamped]
    is the generator's use of it on the input, over the x and y ranges.

    Theorems: every read through [clamped] is in bounds (for a
    well-formed input with non-empty x and y ranges and a channel in
    range), and it reads the nearest edge pixel. *)

From Stdlib Require Import ZArith List Lia Bool.
From S2P Require Import Prelude.
Import ListNotations.
Local Open Scope Z_scope.

(** [halide_dimension_t]: min, extent and stride of one dimension. *)
Record dim := { dmin : Z; dextent : Z; dstride : Z }.

(** [Buffer<float>] with [dims] dimensions over the host array. *)
Record buffer (F : Type) := { dims : list dim; host : list F }.
Arguments dims {F}.
Arguments host {F}.

Section Buffers.
Context {F : Type}.

(** Every coordinate lies in its dimension's range. *)
Fixpoint coords_in_range (ds : list dim) (cs : list Z) : bool :=
  match ds, cs with
  | [], [] => true
  | d :: ds', c :: cs' =>
      (dmin d <=? c) && (c <? dmin d + dextent d) && coords_in_range ds' cs'
  | _, _ => false
  end.

(** The offset of an element in the host array. *)
Fixpoint coords_offset (ds : list dim) (cs : list Z) : Z :=
  match ds, cs with
  | d :: ds', c :: cs' => (c - dmin d) * dstride d + coords_offset ds' cs'
  | _, _ => 0
  end.

(** The largest offset of an element: the corner of every range. *)
Fixpoint max_offset (ds : list dim) : Z :=
  match ds with
  | [] => 0
  | d :: ds' => (dextent d - 1) * dstride d + max_offset ds'
  end.

Definition buf_read (b : buffer F) (cs : list Z) : option F :=
  if coords_in_range (dims b) cs
  then nth_error (host b) (Z.to_nat (coords_offset (dims b) cs))
  else None.

(** Replace the [n]-th element of a list; no change out of range. *)
Fixpoint list_set (l : list F) (n : nat) (v : F) : list F :=
  match l, n with
  | [], _ => []
  | _ :: l', O => v :: l'
  | a :: l', S n' => a :: list_set l' n' v
  end.

Definition buf_write (b : buffer F) (cs : list Z) (v : F) : option (buffer F) :=
  if coords_in_range (dims b) cs
  then Some {| dims := dims b;
               host := list_set (host b) (Z.to_nat (coords_offset (dims b) cs)) v |}
  else None.

(** A well-formed buffer of dimension [n]: [n] dimensions with
    non-negative extents and strides, and a host array that holds the
    largest offset. *)
Definition buffer_wf (n : nat) (b : buffer F) : bool :=
  Nat.eqb (length (dims b)) n &&
  forallb (fun d => (0 <=? dextent d) && (0 <=? dstride d)) (dims b) &&
  (max_offset (dims b) <? Z.of_nat (length (host b))).

(** [clamp(a, lo, hi)] on integers, as Halide writes it. *)
Definition clampZ (a lo hi : Z) : Z := Z.max (Z.min a hi) lo.

(** The arguments after [repeat_edge]'s clamping. *)
Fixpoint repeat_edge_args (bounds : list (Z * Z)) (args : list Z) : list Z :=
  match bounds, args with
  | (mn, ext) :: bs, a :: args' => clampZ a mn (mn + ext - 1) :: repeat_edge_args bs args'
  | _, _ => args
  end.

(** [BoundaryConditions::repeat_edge(source, bounds)]. *)
Definition repeat_edge (source : list Z -> option F) (bounds : list (Z * Z))
    (args : list Z) : option F :=
  source (repeat_edge_args bounds args).

(** The range of dimension [i] of a buffer, [{dim(i).min(), dim(i).extent()}]. *)
Definition dim_range (b : buffer F) (i : nat) : Z * Z :=
  match nth_error (dims b) i with
  | Some d => (dmin d, dextent d)
  | None => (0, 0)
  end.

(** [clamped = BoundaryConditions::repeat_edge(input, {{dim(0)}, {dim(1)}})]. *)
Definition clamped (input : buffer F) (x y c : Z) : option F :=
  repeat_edge (buf_read input) [dim_range input 0; dim_range input 1] [x; y; c].

End Buffers.

(** A 2x2 single-channel buffer, dense, with host values 1..4. *)
Definition sample_buffer : buffer nat :=
  {| dims := [ {| dmin := 0; dextent := 2; dstride := 1 |};
               {| dmin := 0; dextent := 2; dstride := 2 |};
               {| dmin := 0; dextent := 1; dstride := 4 |} ];
     host := [1; 2; 3; 4]%nat |}.


(** ** Offsets and reads *)

Section BufferLemmas.
Context {F : Type}.

Lemma coords_offset_bounds (ds : list dim) (cs : list Z) :
  forallb (fun d => (0 <=? dextent d) && (0 <=? dstride d)) ds = true ->
  coords_in_range ds cs = true ->
  0 <= coords_offset ds cs <= max_offset ds.
Proof.
  revert cs. induction ds as [| d ds IH]; intros [| c cs]; cbn; try discriminate.
  - lia.
  - intros Hwf Hin. apply andb_true_iff in Hwf as [Hd Hwf].
    apply andb_true_iff in Hd as [He Hs].
    apply andb_true_iff in Hin as [Hc Hin]. apply andb_true_iff in Hc as [Hlo Hhi].
    apply Z.leb_le in He, Hs, Hlo. apply Z.ltb_lt in Hhi.
    specialize (IH cs Hwf Hin). nia.
Qed.

(** A read of in-range coordinates of a well-formed buffer succeeds. *)
Lemma buf_read_in_range (n : nat) (b : buffer F) (cs : list Z) :
  buffer_wf n b = true ->
  coords_in_range (dims b) cs = true ->
  exists v, buf_read b cs = Some v.
Proof.
  unfold buffer_wf, buf_read. intros Hwf Hin. rewrite Hin.
  apply andb_true_iff in Hwf as [Hwf Hlen]. apply andb_true_iff in Hwf as [_ Hwf].
  apply Z.ltb_lt in Hlen.
  pose proof (coords_offset_bounds _ _ Hwf Hin).
  destruct (nth_error (host b) _) eqn:E; [eauto |].
  apply nth_error_None in E. lia.
Qed.

Lemma clampZ_range (a lo hi : Z) : lo <= hi -> lo <= clampZ a lo hi <= hi.
Proof. unfold clampZ. lia. Qed.

Lemma clampZ_id (a lo hi : Z) : lo <= a <= hi -> clampZ a lo hi = a.
Proof. unfold clampZ. lia. Qed.

Lemma dim_range_of (b : buffer F) (d0 d1 d2 : dim) :
  dims b = [d0; d1; d2] ->
  dim_range b 0 = (dmin d0, dextent d0) /\ dim_range b 1 = (dmin d1, dextent d1) /\
  dim_range b 2 = (dmin d2, dextent d2).
Proof. unfold dim_range. intros ->. repeat split. Qed.

Lemma buffer_wf_dims3 (b : buffer F) :
  buffer_wf 3 b = true -> exists d0 d1 d2, dims b = [d0; d1; d2].
Proof.
  unfold buffer_wf. intros Hwf. apply andb_true_iff in Hwf as [Hwf _].
  apply andb_true_iff in Hwf as [Hn _]. apply Nat.eqb_eq in Hn.
  destruct (dims b) as [| d0 [| d1 [| d2 [| d3 ds]]]]; try discriminate. eauto.
Qed.

(** ** Writes *)

Lemma list_set_length (l : list F) (n : nat) (v : F) : length (list_set l n v) = length l.
Proof. revert n. induction l as [| a l IH]; intros [| n]; cbn; auto. Qed.

Lemma nth_error_list_set (l : list F) (n m : nat) (v : F) :
  nth_error (list_set l n v) m =
  if Nat.eqb n m then (if Nat.ltb n (length l) then Some v else None) else nth_error l m.
Proof.
  revert n m. induction l as [| a l IH]; intros [| n] [| m]; cbn; try reflexivity.
  - now destruct (Nat.eqb n m).
  - apply IH.
Qed.

(** The layout of a buffer is injective when distinct in-range
    coordinates have distinct offsets: no two elements alias. *)
Definition offsets_injective (ds : list dim) : Prop :=
  forall cs cs', coords_in_range ds cs = true -> coords_in_range ds cs' = true ->
  coords_offset ds cs = coords_offset ds cs' -> cs = cs'.

(** A write keeps the dimensions; a read after it sees the written value
    at the written coordinates and the old contents elsewhere. *)
Lemma buf_write_dims (b b' : buffer F) (cs : list Z) (v : F) :
  buf_write b cs v = Some b' -> dims b' = dims b /\ length (host b') = length (host b).
Proof.
  unfold buf_write. destruct (coords_in_range _ _); intros [= <-]. cbn.
  split; [reflexivity | apply list_set_length].
Qed.

Lemma buf_read_write (n : nat) (b b' : buffer F) (cs cs' : list Z) (v : F) :
  buffer_wf n b = true -> offsets_injective (dims b) ->
  buf_write b cs v = Some b' ->
  buf_read b' cs' = if list_eq_dec Z.eq_dec cs cs' then Some v else buf_read b cs'.
Proof.
  unfold buf_write, buf_read. intros Hwf Hinj.
  destruct (coords_in_range (dims b) cs) eqn:Hin; [intros [= <-] | discriminate]. cbn.
  apply andb_true_iff in Hwf as [Hwf Hlen]. apply andb_true_iff in Hwf as [_ Hwf].
  apply Z.ltb_lt in Hlen. pose proof (coords_offset_bounds _ _ Hwf Hin) as Hb.
  destruct (coords_in_range (dims b) cs') eqn:Hin'.
  - rewrite nth_error_list_set.
    pose proof (coords_offset_bounds _ _ Hwf Hin') as Hb'.
    destruct (list_eq_dec Z.eq_dec cs cs') as [<- | Hne].
    + rewrite Nat.eqb_refl. replace (Nat.ltb _ _) with true by (symmetry; apply Nat.ltb_lt; lia).
      reflexivity.
    + replace (Nat.eqb _ _) with false; [reflexivity |].
      symmetry. apply Nat.eqb_neq. intros E. apply Hne, Hinj; [exact Hin | exact Hin' | lia].
  - destruct (list_eq_dec Z.eq_dec cs cs') as [<- | _]; [congruence | reflexivity].
Qed.

Lemma buffer_wf_write (n : nat) (b b' : buffer F) (cs : list Z) (v : F) :
  buf_write b cs v = Some b' -> buffer_wf n b' = buffer_wf n b.
Proof.
  intros Hw. destruct (buf_write_dims _ _ _ _ Hw) as [Hd Hl].
  unfold buffer_wf. now rewrite Hd, Hl.
Qed.

Lemma coords_in_range3 (d0 d1 d2 : dim) (x y c : Z) :
  coords_in_range [d0; d1; d2] [x; y; c] = true <->
  dmin d0 <= x < dmin d0 + dextent d0 /\ dmin d1 <= y < dmin d1 + dextent d1 /\
  dmin d2 <= c < dmin d2 + dextent d2.
Proof.
  cbn. rewrite !andb_true_iff, !Z.leb_le, !Z.ltb_lt. tauto.
Qed.

(** A dense layout from stride [s]: each stride is the product of [s]
    and the extents of the dimensions before it (Halide's default
    layout, x innermost). *)
Fixpoint dense_from (s : Z) (ds : list dim) : bool :=
  match ds with
  | [] => true
  | d :: ds' => (dstride d =? s) && (0 <? dextent d) && dense_from (s * dextent d) ds'
  end.

Lemma mixed_radix_inj (n a1 a2 b1 b2 : Z) :
  0 <= a1 < n -> 0 <= a2 < n -> a1 + n * b1 = a2 + n * b2 -> a1 = a2 /\ b1 = b2.
Proof.
  intros H1 H2 E. destruct (Z.lt_trichotomy b1 b2) as [Hb | [Hb | Hb]]; [nia | split; nia | nia].
Qed.

(** A dense layout numbers the in-range coordinates in mixed radix, so
    the offset is [s] times a number below the product of the extents,
    and distinct coordinates get distinct numbers. *)
Lemma dense_offsets (s : Z) (ds : list dim) :
  0 < s -> dense_from s ds = true ->
  (forall cs, coords_in_range ds cs = true ->
     exists N, coords_offset ds cs = s * N /\ 0 <= N) /\
  (forall cs cs', coords_in_range ds cs = true -> coords_in_range ds cs' = true ->
     coords_offset ds cs = coords_offset ds cs' -> cs = cs').
Proof.
  revert s. induction ds as [| d ds IH]; intros s Hs Hd.
  - split; [intros [| c cs] H; [exists 0; cbn; lia | discriminate] |].
    intros [| c cs] [| c' cs'] H H'; cbn in *; congruence.
  - cbn in Hd. apply andb_true_iff in Hd as [Hd Hrest]. apply andb_true_iff in Hd as [Hst He].
    apply Z.eqb_eq in Hst. apply Z.ltb_lt in He.
    destruct (IH (s * dextent d) ltac:(nia) Hrest) as [IHn IHi].
    assert (Hrange : forall c cs, coords_in_range (d :: ds) (c :: cs) = true ->
              0 <= c - dmin d < dextent d /\ coords_in_range ds cs = true).
    { intros c cs H. cbn in H. apply andb_true_iff in H as [H Hr].
      apply andb_true_iff in H as [H1 H2]. apply Z.leb_le in H1. apply Z.ltb_lt in H2.
      split; [lia | exact Hr]. }
    split.
    + intros [| c cs] H; [discriminate |]. destruct (Hrange c cs H) as [Hc Hr].
      destruct (IHn cs Hr) as (N & EN & HN). exists (c - dmin d + dextent d * N).
      cbn. rewrite EN, Hst. split; nia.
    + intros [| c cs] [| c' cs'] H H'; try discriminate.
      destruct (Hrange c cs H) as [Hc Hr], (Hrange c' cs' H') as [Hc' Hr'].
      destruct (IHn cs Hr) as (N & EN & _), (IHn cs' Hr') as (N' & EN' & _).
      cbn. rewrite EN, EN', Hst. intros E.
      assert (E' : (c - dmin d) + dextent d * N = (c' - dmin d) + dextent d * N') by nia.
      destruct (mixed_radix_inj _ _ _ _ _ Hc Hc' E') as [Ec EN''].
      f_equal; [lia | apply IHi; [exact Hr | exact Hr' | rewrite EN, EN'; now subst]].
Qed.

Lemma dense_injective (ds : list dim) : dense_from 1 ds = true -> offsets_injective ds.
Proof. intros Hd. exact (proj2 (dense_offsets 1 ds ltac:(lia) Hd)). Qed.

End BufferLemmas.

(** ** Properties of the Boundary Handler *)

(** The coordinates [clamped] reads are in range, for a well-formed
    3-D input with non-empty x and y ranges and a channel in range. *)
Lemma clamped_coords_in_range {F : Type} (input : buffer F) (x y c : Z) :
  buffer_wf 3 input = true ->
  0 < snd (dim_range input 0) -> 0 < snd (dim_range input 1) ->
  fst (dim_range input 2) <= c < fst (dim_range input 2) + snd (dim_range input 2) ->
  coords_in_range (dims input)
    (repeat_edge_args [dim_range input 0; dim_range input 1] [x; y; c]) = true.
Proof.
  intros Hwf Hx Hy Hc.
  destruct (buffer_wf_dims3 _ Hwf) as (d0 & d1 & d2 & Hd).
  destruct (dim_range_of _ _ _ _ Hd) as (E0 & E1 & E2).
  rewrite E0, E1, E2 in *; cbn in Hx, Hy, Hc. cbn [repeat_edge_args]. rewrite Hd.
  apply coords_in_range3.
  pose proof (clampZ_range x (dmin d0) (dmin d0 + dextent d0 - 1)).
  pose proof (clampZ_range y (dmin d1) (dmin d1 + dextent d1 - 1)). lia.
Qed.

(** C12: every read through [clamped] is in bounds: for a well-formed
    3-D input with non-empty x and y ranges, any integer [x] and [y]
    and a channel [c] in range, [clamped] reads an element of the host
    array (no out-of-bounds access, whatever the tap window). *)
Theorem clamped_in_bounds {F : Type} (input : buffer F) (x y c : Z) :
  buffer_wf 3 input = true ->
  0 < snd (dim_range input 0) ->
  0 < snd (dim_range input 1) ->
  fst (dim_range input 2) <= c < fst (dim_range input 2) + snd (dim_range input 2) ->
  exists v, clamped input x y c = Some v.
Proof.
  intros Hwf Hx Hy Hc. unfold clamped, repeat_edge.
  apply (buf_read_in_range 3); [exact Hwf |].
  apply clamped_coords_in_range; assumption.
Qed.

(** C21: [clamped] is the input inside the x and y ranges, and outside
    them it repeats the nearest edge pixel, along x and along y. *)
Theorem clamped_repeats_edge {F : Type} (input : buffer F) (x y c : Z) :
  let (mn0, ext0) := dim_range input 0 in
  let (mn1, ext1) := dim_range input 1 in
  (mn0 <= x < mn0 + ext0 -> mn1 <= y < mn1 + ext1 ->
     clamped input x y c = buf_read input [x; y; c]) /\
  (x < mn0 -> clamped input x y c = clamped input mn0 y c) /\
  (mn0 + ext0 <= x -> clamped input x y c = clamped input (mn0 + ext0 - 1) y c) /\
  (y < mn1 -> clamped input x y c = clamped input x mn1 c) /\
  (mn1 + ext1 <= y -> clamped input x y c = clamped input x (mn1 + ext1 - 1) c).
Proof.
  unfold clamped, repeat_edge.
  destruct (dim_range input 0) as [mn0 ext0], (dim_range input 1) as [mn1 ext1].
  cbn [repeat_edge_args]. unfold clampZ.
  repeat split; intros; apply f_equal; repeat (f_equal; try lia).
Qed.

(** ** Witnesses *)

Lemma clamped_in_bounds_witness :
  buffer_wf 3 sample_buffer = true /\ 0 < snd (dim_range sample_buffer 0) /\
  0 < snd (dim_range sample_buffer 1) /\
  fst (dim_range sample_buffer 2) <= 0 < fst (dim_range sample_buffer 2) + snd (dim_range sample_buffer 2) /\
  exists v, clamped sample_buffer (-5) 7 0 = Some v.
Proof.
  split; [reflexivity |]. split; [cbn; lia |]. split; [cbn; lia |].
  split; [cbn; lia |].
  apply (clamped_in_bounds sample_buffer (-5) 7 0); [reflexivity | cbn; lia | cbn; lia | cbn; lia].
Defined.

Lemma clamped_repeats_edge_witness :
  (-3 < 0) /\ clamped sample_buffer (-3) 1 0 = clamped sample_buffer 0 1 0.
Proof.
  split; [lia |].
  pose proof (clamped_repeats_edge sample_buffer (-3) 1 0) as H. cbn in H.
  destruct H as (_ & H & _). apply H. lia.
Defined.
