(* ===== verification/Weights.v ===== *)
(** * Kernel Weight Generator (resize_generator.cpp, lines 87-116)

    For one axis, the generator computes for every output coordinate [v]
    the first source index [begin v] of the tap window and [kernel_taps]
    weights, normalised by their sum.  The x and y axes use the same
    formulas ([sourcex]/[sourcey], [beginx]/[beginy], ...), so each pair
    is one definition here, applied to x or to y by the resampler.

    Theorems over [Q]: the normalised weights sum to 1 whenever the
    unnormalised sum is not 0; when upsampling with the box, linear or
    cubic kernel the unnormalised sum is already exactly 1; when
    downsampling with the box or linear kernel it is positive; with the
    box kernel, [upsample] false and scale 3 it is 0 at two output
    coordinates in three (a division 0/0); the tap window contains
    every source index the linear or cubic kernel weighs; the tap count
    bounds; [begin] is monotone. *)

From Stdlib Require Import ZArith QArith Qround Qabs Qminmax Lqa List Lia.
From Stdlib Require Import Morphisms Setoid.
From S2P Require Import Prelude ScalarQ Kernels.
Import ListNotations.
Open Scope halide_scope.

Section Weights.
Context {F : Type} `{FloatOps F}.
Variables (interpolation_type : InterpolationType) (upsample : bool) (scale_factor : F).

(** [const KernelInfo &info = kernel_info[interpolation_type]]. *)
Definition info : KernelInfo F := kernel_info interpolation_type.

(** [Expr kernel_scaling = upsample ? Expr(1.0f) : scale_factor]. *)
Definition kernel_scaling : F := if upsample then f_lit 1 else scale_factor.

(** [0.5f * kernel_info[interpolation_type].taps / kernel_scaling]. *)
Definition kernel_radius : F :=
  f_lit ((1 # 2) * inject_Z (taps info)) /! kernel_scaling.

(** [ceil(kernel_info[interpolation_type].taps / kernel_scaling)], the
    extent of [RDom r(0, kernel_taps)]. *)
Definition kernel_taps : Z := f_ceil (f_of_int (taps info) /! kernel_scaling).

(** [sourcex = (x + 0.5f) / scale_factor - 0.5f] (and [sourcey]). *)
Definition source (v : Z) : F :=
  (f_of_int v +! f_lit (1 # 2)) /! scale_factor -! f_lit (1 # 2).

(** [beginx = cast<int>(ceil(sourcex - kernel_radius))] (and [beginy]). *)
Definition begin (v : Z) : Z := f_ceil (source v -! kernel_radius).

(** [unnormalized_kernel_x(x, k) = info.kernel((k + beginx - sourcex) * kernel_scaling)]. *)
Definition unnormalized_kernel (v k : Z) : F :=
  kernel info ((f_of_int (k + begin v) -! source v) *! kernel_scaling).

(** [kernel_sum_x(x) = sum(unnormalized_kernel_x(x, r))]. *)
Definition kernel_sum (v : Z) : F :=
  hsum 0 kernel_taps (fun r => unnormalized_kernel v r).

(** [kernel_x(x, k) = unnormalized_kernel_x(x, k) / kernel_sum_x(x)]. *)
Definition normalized_kernel (v k : Z) : F :=
  unnormalized_kernel v k /! kernel_sum v.

End Weights.

(** ** Lemmas over [Q] *)

Section WeightsQ.
Variables (t : InterpolationType) (up : bool) (s : Q).

Local Abbreviation kappa := (kernel_scaling up s).
Local Abbreviation n := (taps (kernel_info (F := Q) t)).


Lemma kernel_radius_Q : kernel_radius t up s == (1 # 2) * inject_Z n / kappa.
Proof. reflexivity. Qed.

Lemma kernel_taps_Q : kernel_taps t up s = Qceiling (inject_Z n / kappa).
Proof. reflexivity. Qed.

Lemma source_Q (v : Z) : source s v == (inject_Z v + (1 # 2)) / s - (1 # 2).
Proof. reflexivity. Qed.

Lemma begin_Q (v : Z) :
  begin t up s v = Qceiling (source s v - (1 # 2) * inject_Z n / kappa).
Proof. reflexivity. Qed.

(** The tap window starts at the first integer at or after
    [source - radius]. *)
Lemma begin_spec (v : Z) :
  inject_Z (begin t up s v) - 1 < source s v - kernel_radius t up s <=
  inject_Z (begin t up s v).
Proof.
  unfold begin. qops. split.
  - pose proof (Qceiling_lt (source s v - kernel_radius t up s)) as Hlt.
    rewrite inject_Z_sub in Hlt. exact Hlt.
  - apply Qle_ceiling.
Qed.

(** The argument of the [k]-th tap, as an offset from the first one. *)
Lemma unnormalized_kernel_Q (v k : Z) :
  unnormalized_kernel t up s v k ==
  kernel (kernel_info t) ((inject_Z (begin t up s v) - source s v) * kappa + inject_Z k * kappa).
Proof.
  unfold unnormalized_kernel, info. qops. apply kernel_Proper.
  rewrite inject_Z_plus. ring.
Qed.

(** The first tap's argument lies in [-taps/2, -taps/2 + kappa). *)
Lemma first_offset_range (v : Z) :
  0 < kappa ->
  -(1 # 2) * inject_Z n <= (inject_Z (begin t up s v) - source s v) * kappa <
  -(1 # 2) * inject_Z n + kappa.
Proof.
  intros Hk. pose proof (begin_spec v) as [Hlo Hhi].
  rewrite kernel_radius_Q in Hlo, Hhi.
  set (b := inject_Z (begin t up s v)) in *. set (src := source s v) in *.
  set (r := (1 # 2) * inject_Z n) in *.
  assert (Hrq : r == (1 # 2) * inject_Z n) by reflexivity.
  assert (Hr : r / kappa * kappa == r) by (field; lra).
  set (d := r / kappa) in *.
  assert (0 <= (b - src + d) * kappa) by (apply Qmult_le_0_compat; lra).
  assert (0 < (1 - d - b + src) * kappa) by (apply Qmult_lt_0_compat; lra).
  split; lra.
Qed.

(** Without widening ([kernel_scaling] 1: upsampling, or scale 1) the
    window has the native tap count. *)
Lemma kernel_taps_unit : kappa == 1 -> kernel_taps t up s = n.
Proof.
  intros Hk. rewrite kernel_taps_Q.
  rewrite (Qceiling_comp _ (inject_Z n)) by (rewrite Hk; field). apply Qceiling_Z.
Qed.

(** Widening never shrinks the window. *)
Lemma kernel_taps_ge : 0 < kappa <= 1 -> (n <= kernel_taps t up s)%Z.
Proof.
  intros Hk. rewrite kernel_taps_Q, <- (Qceiling_Z n) at 1.
  apply Qceiling_resp_le.
  pose proof (kernel_info_taps_pos t) as Hn. rewrite Zle_Qle in Hn. qconst.
  apply Qle_shift_div_l; [lra | nra].
Qed.

(** The window [begin, begin + kernel_taps) contains every source index
    strictly within [kernel_radius] of the source coordinate. *)
Lemma tap_window_contains (v j : Z) :
  0 < kappa ->
  Qabs (inject_Z j - source s v) < kernel_radius t up s ->
  (begin t up s v <= j < begin t up s v + kernel_taps t up s)%Z.
Proof.
  intros Hk Hj. apply Qabs_Qlt_condition in Hj.
  pose proof (begin_spec v) as [_ Hb].
  pose proof (Qle_ceiling (inject_Z n / kappa)) as Ht. rewrite <- kernel_taps_Q in Ht.
  assert (Hr : inject_Z n / kappa == 2 * kernel_radius t up s)
    by (rewrite kernel_radius_Q; field; lra).
  split.
  - unfold begin. qops. rewrite <- (Qceiling_Z j). apply Qceiling_resp_le. lra.
  - rewrite Zlt_Qlt, inject_Z_plus. lra.
Qed.

End WeightsQ.

(** ** Properties of the Kernel Weight Generator *)

(** C1: normalisation: whenever the unnormalised tap sum is not 0, the
    normalised weights of an output coordinate sum to 1. *)
Theorem normalized_kernel_sum (t : InterpolationType) (up : bool) (s : Q) (v : Z) :
  ~ kernel_sum t up s v == 0 ->
  hsum 0 (kernel_taps t up s) (normalized_kernel t up s v) == 1.
Proof.
  intros Hs. apply hsum_normalize. exact Hs.
Qed.

(** C2: without widening (upsampling, or a scale factor of 1), the
    unnormalised weights of the box, linear and cubic kernels already sum
    to exactly 1, for every output coordinate. *)
Theorem kernel_sum_unit (t : InterpolationType) (up : bool) (s : Q) (v : Z) :
  t <> Lanczos -> kernel_scaling up s == 1 -> kernel_sum t up s v == 1.
Proof.
  intros Ht Hk. unfold kernel_sum. rewrite (kernel_taps_unit t up s Hk).
  set (t0 := (inject_Z (begin t up s v) - source s v) * kernel_scaling up s).
  transitivity (hsum 0 (taps (kernel_info t)) (fun k => kernel (kernel_info t) (t0 + inject_Z k))).
  - apply hsum_ext. intros k _. rewrite unnormalized_kernel_Q.
    apply kernel_Proper. unfold t0. rewrite Hk. ring.
  - pose proof (first_offset_range t up s v ltac:(rewrite Hk; reflexivity)) as Hr.
    fold t0 in Hr. rewrite Hk in Hr. revert Hr.
    destruct t; try congruence;
      cbn [kernel_info nth kernel_info_table kernel taps interpolation_index]; qconst; intros Hr;
      [apply box_partition | apply linear_partition | apply cubic_partition]; lra.
Qed.

Lemma box_linear_nonneg (t : InterpolationType) (x : Q) :
  t = Box \/ t = Linear -> 0 <= kernel (kernel_info t) x.
Proof.
  intros [-> | ->]; cbn; [unfold kernel_box | unfold kernel_linear]; qops;
    case_select; lra.
Qed.

(** With the box or linear kernel and a kernel scaling in (0, 1], some
    tap of the window has a positive weight. *)
Lemma box_linear_positive_tap (t : InterpolationType) (up : bool) (s : Q) (v : Z) :
  t = Box \/ t = Linear -> 0 < (kernel_scaling up s) <= 1 ->
  exists r, (0 <= r < 0 + kernel_taps t up s)%Z /\ 0 < unnormalized_kernel t up s v r.
Proof.
  intros Ht Hk. pose proof (kernel_taps_ge t up s Hk) as Htaps.
  pose proof (first_offset_range t up s v ltac:(lra)) as Hr.
  set (t0 := (inject_Z (begin t up s v) - source s v) * (kernel_scaling up s)) in Hr.
  destruct Ht as [-> | ->].
  - change (taps (kernel_info Box)) with 1%Z in *. qconst.
    exists 0%Z. split; [lia |].
    rewrite unnormalized_kernel_Q. fold t0. qconst.
    change (kernel (kernel_info Box)) with (@kernel_box Q _).
    rewrite box_inside; [reflexivity |].
    apply Qabs_Qle_condition. lra.
  - change (taps (kernel_info Linear)) with 2%Z in *. qconst.
    destruct (Qlt_le_dec (-1) t0) as [Hlt | Hge]; [exists 0%Z | exists 1%Z];
      (split; [lia |]); rewrite unnormalized_kernel_Q; fold t0; qconst;
      change (kernel (kernel_info Linear)) with (@kernel_linear Q _);
      rewrite linear_inside by (apply Qabs_Qle_condition; lra); qabs_simpl; lra.
Qed.

Lemma unnormalized_box_linear_nonneg (t : InterpolationType) (up : bool) (s : Q) (v r : Z) :
  t = Box \/ t = Linear -> 0 <= unnormalized_kernel t up s v r.
Proof. intros Ht. rewrite unnormalized_kernel_Q. now apply box_linear_nonneg. Qed.

(** When downsampling (kernel widened by a scale factor in (0,1]),
    or upsampling, the box and linear kernels give a positive tap sum,
    so the normalisation never divides by 0. *)
Lemma kernel_sum_pos (t : InterpolationType) (up : bool) (s : Q) (v : Z) :
  t = Box \/ t = Linear -> 0 < (kernel_scaling up s) <= 1 -> 0 < kernel_sum t up s v.
Proof.
  intros Ht Hk. destruct (box_linear_positive_tap t up s v Ht Hk) as (r & Hr & Hpos).
  eapply Qlt_le_trans; [exact Hpos |].
  apply hsum_ge_term; [intros; now apply unnormalized_box_linear_nonneg | exact Hr].
Qed.

(** C11: the tap window is complete for the linear and cubic kernels:
    every source index [j] whose weight is not 0 lies in
    [begin, begin + kernel_taps), so the reduction over the [RDom]
    misses no contribution. *)
Theorem tap_window_complete (t : InterpolationType) (up : bool) (s : Q) (v j : Z) :
  t = Linear \/ t = Cubic -> 0 < (kernel_scaling up s) ->
  ~ kernel (kernel_info t) ((inject_Z j - source s v) * (kernel_scaling up s)) == 0 ->
  (begin t up s v <= j < begin t up s v + kernel_taps t up s)%Z.
Proof.
  intros Ht Hk Hnz. apply tap_window_contains; [exact Hk |].
  apply Qnot_le_lt. intros Hle. apply Hnz, kernel_support_closed; [exact Ht |].
  rewrite kernel_radius_Q in Hle.
  rewrite Qabs_Qmult, (Qabs_pos (kernel_scaling up s)) by lra.
  apply Qdiv_le_mult in Hle; [| exact Hk]. lra.
Qed.

(** [begin] is monotone in the output coordinate for a positive scale
    factor: the tap windows move right as the output does. *)
Lemma begin_monotone (t : InterpolationType) (up : bool) (s : Q) (v w : Z) :
  0 < s -> (v <= w)%Z -> (begin t up s v <= begin t up s w)%Z.
Proof.
  intros Hs Hvw. rewrite !begin_Q. apply Qceiling_resp_le.
  rewrite !source_Q. rewrite Zle_Qle in Hvw.
  assert ((inject_Z v + (1 # 2)) / s <= (inject_Z w + (1 # 2)) / s)
    by (apply Qmult_le_compat_r; [lra | apply Qlt_le_weak, Qinv_lt_0_compat, Hs]).
  lra.
Qed.


(** C10: the spec's claim that the tap sum is never 0 fails when the
    [upsample] flag does not match the scale: with the box kernel,
    [upsample] false (the default) and scale factor 3, the single tap of
    every output coordinate [v] with [v mod 3 <> 1] falls outside the
    kernel, the tap sum is 0 and the normalisation divides 0 by 0. *)
Theorem kernel_sum_box_mismatch_zero (v : Z) :
  (v mod 3 <> 1)%Z -> kernel_sum Box false 3 v == 0.
Proof.
  intros Hv. pose proof (begin_spec Box false 3 v) as [Hlo Hhi].
  rewrite kernel_radius_Q, source_Q in Hlo, Hhi.
  change (kernel_scaling false 3) with (3 : Q) in *.
  change (taps (kernel_info Box)) with 1%Z in *.
  remember (begin Box false 3 v) as b eqn:Eb. qconst.
  assert (H1 : (6 * b - 3 < 2 * v)%Z) by (zq; qdiv_const; lra).
  assert (H2 : (2 * v - 3 <= 6 * b)%Z) by (zq; qdiv_const; lra).
  unfold kernel_sum. replace (kernel_taps Box false 3) with 1%Z by reflexivity.
  rewrite hsum_0_1, unnormalized_kernel_Q, source_Q, <- Eb.
  change (kernel (kernel_info Box)) with (@kernel_box Q _).
  change (kernel_scaling false 3) with (3 : Q).
  apply box_outside.
  assert (Hne : v <> (3 * b + 1)%Z).
  { intros ->. apply Hv. rewrite Z.add_comm, Z.mul_comm, Z.mod_add by lia. reflexivity. }
  assert (Hc : v = (3 * b - 1)%Z \/ v = (3 * b)%Z) by lia.
  destruct Hc as [-> | ->]; rewrite ?inject_Z_sub, inject_Z_mult; qconst; qdiv_const;
    qabs_simpl; lra.
Qed.

(** C23: the spec says the evaluated offsets always lie inside
    [[-radius, radius]]; with the cubic kernel widened by the scale
    factor 3/10 ([upsample] false), the window has 14 taps and, at every
    output coordinate [v] with [v mod 3 = 0], its last tap lies beyond
    the radius (at 41/6 source pixels, for a radius of 20/3).  The
    kernel is 0 there, so the weights are not affected. *)
Theorem cubic_tap_beyond_radius (v : Z) :
  (v mod 3 = 0)%Z ->
  kernel_taps Cubic false (3 # 10) = 14%Z /\
  kernel_radius Cubic false (3 # 10) <
    inject_Z (13 + begin Cubic false (3 # 10) v) - source (3 # 10) v /\
  unnormalized_kernel Cubic false (3 # 10) v 13 == 0.
Proof.
  intros Hv. set (q := (v / 3)%Z).
  assert (Hq : v = (3 * q)%Z) by (pose proof (Z.div_mod v 3 ltac:(lia)); unfold q; lia).
  pose proof (begin_spec Cubic false (3 # 10) v) as [Hlo Hhi].
  rewrite kernel_radius_Q, source_Q in Hlo, Hhi.
  change (kernel_scaling false (3 # 10)) with (3 # 10 : Q) in *.
  change (taps (kernel_info Cubic)) with 4%Z in *.
  remember (begin Cubic false (3 # 10) v) as b eqn:Eb.
  rewrite Hq, inject_Z_mult in Hlo, Hhi. qconst.
  assert (H1 : (6 * b - 6 < 60 * q - 33)%Z) by (zq; rewrite ?inject_Z_mult; qconst; qdiv_const; lra).
  assert (H2 : (60 * q - 33 <= 6 * b)%Z) by (zq; rewrite ?inject_Z_mult; qconst; qdiv_const; lra).
  assert (Hb : b = (10 * q - 5)%Z) by lia.
  split; [reflexivity |]. split.
  - rewrite kernel_radius_Q, source_Q, Hb, Hq.
    change (kernel_scaling false (3 # 10)) with (3 # 10 : Q).
    change (taps (kernel_info Cubic)) with 4%Z.
    rewrite inject_Z_plus, inject_Z_sub, !inject_Z_mult. qconst. qdiv_const. lra.
  - rewrite unnormalized_kernel_Q, source_Q, <- Eb, Hb, Hq.
    change (kernel (kernel_info Cubic)) with (@kernel_cubic Q _).
    change (kernel_scaling false (3 # 10)) with (3 # 10 : Q).
    apply cubic_outside. rewrite inject_Z_sub, !inject_Z_mult. qconst. qdiv_const.
    qabs_simpl; lra.
Qed.


(** ** Witnesses *)

Lemma normalized_kernel_sum_witness :
  ~ kernel_sum Cubic false (1 # 2) 3 == 0 /\
  hsum 0 (kernel_taps Cubic false (1 # 2)) (normalized_kernel Cubic false (1 # 2) 3) == 1.
Proof.
  assert (H : ~ kernel_sum Cubic false (1 # 2) 3 == 0) by (intros E; vm_compute in E; discriminate E).
  split; [exact H |]. apply normalized_kernel_sum. exact H.
Defined.

Lemma kernel_sum_unit_witness :
  Cubic <> Lanczos /\ kernel_scaling true (3 # 2) == 1 /\ kernel_sum Cubic true (3 # 2) 5 == 1.
Proof.
  split; [discriminate |]. split; [reflexivity |].
  apply kernel_sum_unit; [discriminate | reflexivity].
Defined.

Lemma tap_window_complete_witness :
  (Cubic = Linear \/ Cubic = Cubic) /\ 0 < kernel_scaling false (1 # 2) /\
  ~ kernel (kernel_info Cubic) ((inject_Z 4 - source (1 # 2) 2) * kernel_scaling false (1 # 2)) == 0 /\
  (begin Cubic false (1 # 2) 2 <= 4 < begin Cubic false (1 # 2) 2 + kernel_taps Cubic false (1 # 2))%Z.
Proof.
  assert (Hk : 0 < kernel_scaling false (1 # 2)) by (vm_compute; reflexivity).
  assert (Hnz : ~ kernel (kernel_info Cubic) ((inject_Z 4 - source (1 # 2) 2) *
                  kernel_scaling false (1 # 2)) == 0)
    by (intros E; vm_compute in E; discriminate E).
  split; [now right |]. split; [exact Hk |]. split; [exact Hnz |].
  apply tap_window_complete; [now right | exact Hk | exact Hnz].
Defined.

Lemma kernel_sum_box_mismatch_zero_witness :
  (0 mod 3 <> 1)%Z /\ kernel_sum Box false 3 0 == 0.
Proof.
  split; [discriminate |]. apply kernel_sum_box_mismatch_zero. discriminate.
Defined.

Lemma cubic_tap_beyond_radius_witness :
  (6 mod 3 = 0)%Z /\
  kernel_radius Cubic false (3 # 10) <
    inject_Z (13 + begin Cubic false (3 # 10) 6) - source (3 # 10) 6.
Proof.
  split; [reflexivity |]. exact (proj1 (proj2 (cubic_tap_beyond_radius 6 eq_refl))).
Defined.

