(* ===== verification/Resample.v ===== *)
(** * Separable Resampler (resize_generator.cpp, lines 118-129)

    The generator defines [resized_x], [resized_y] and [output] in one of
    two ways, chosen by the generator parameter [upsample]: x first then
    y ([resized_x_up], [resized_y_up]) when upsampling, y first then x
    ([resized_y_down], [resized_x_down]) otherwise; the output is the
    second pass clamped to [0, 1].  The flag also selects the kernel
    scaling of the weight tables ([Weights.kernel_scaling]), so both
    orders are defined here for either flag, and [output] picks one as
    the code does.

    [clamped_sample] is the value of the Func [clamped]: the input read
    through [repeat_edge].  A read of [clamped] outside the input is
    impossible for a well-formed input (proved in Buffer.v), so
    the value 0 chosen for that case is never used.

    Theorems over [Q]: the two orders compute the same value (so the
    order is a choice of schedule, not of result); with the box or
    linear kernel and an input in [0, 1] the clamp never changes the
    value; at scale 1 the pipeline is the identity; the box kernel at an
    integer upsampling factor is nearest neighbour, and at an integer
    downsampling factor the area average; the linear kernel, when
    upsampling, is bilinear interpolation at any scale factor; a flat
    image is preserved. *)

From Stdlib Require Import ZArith QArith Qround Qabs Qminmax Lqa List Lia.
From Stdlib Require Import Morphisms Setoid.
From S2P Require Import Prelude ScalarQ Kernels Buffer Weights.
Import ListNotations.
Open Scope halide_scope.

Section Resample.
Context {F : Type} `{FloatOps F}.
Variables (interpolation_type : InterpolationType) (upsample : bool)
  (input : buffer F) (scale_factor : F).

Local Abbreviation taps_r := (kernel_taps interpolation_type upsample scale_factor).
Local Abbreviation begin_r := (begin interpolation_type upsample scale_factor).
Local Abbreviation kernel_r := (normalized_kernel interpolation_type upsample scale_factor).

(** The Func [clamped] as a value. *)
Definition clamped_sample (x y c : Z) : F :=
  match clamped input x y c with Some v => v | None => f_lit 0 end.

(** [resized_x(x, y, c) = sum(kernel_x(x, r) * clamped(r + beginx, y, c))]. *)
Definition resized_x_up (x y c : Z) : F :=
  hsum 0 taps_r (fun r => kernel_r x r *! clamped_sample (r + begin_r x) y c).

(** [resized_y(x, y, c) = sum(kernel_y(y, r) * resized_x(x, r + beginy, c))]. *)
Definition resized_y_up (x y c : Z) : F :=
  hsum 0 taps_r (fun r => kernel_r y r *! resized_x_up x (r + begin_r y) c).

(** [resized_y(x, y, c) = sum(kernel_y(y, r) * clamped(x, r + beginy, c))]. *)
Definition resized_y_down (x y c : Z) : F :=
  hsum 0 taps_r (fun r => kernel_r y r *! clamped_sample x (r + begin_r y) c).

(** [resized_x(x, y, c) = sum(kernel_x(x, r) * resized_y(r + beginx, y, c))]. *)
Definition resized_x_down (x y c : Z) : F :=
  hsum 0 taps_r (fun r => kernel_r x r *! resized_y_down (r + begin_r x) y c).

(** [output(x, y, c) = clamp(resized_y(x, y, c), 0.0f, 1.0f)] when
    upsampling, [clamp(resized_x(x, y, c), 0.0f, 1.0f)] otherwise. *)
Definition output (x y c : Z) : F :=
  if upsample then clamp (resized_y_up x y c) (f_lit 0) (f_lit 1)
  else clamp (resized_x_down x y c) (f_lit 0) (f_lit 1).

End Resample.

(** A 4x1 single-channel step edge [0 0 1 1]. *)
Definition step_edge : buffer Q :=
  {| dims := [ {| dmin := 0; dextent := 4; dstride := 1 |};
               {| dmin := 0; dextent := 1; dstride := 4 |};
               {| dmin := 0; dextent := 1; dstride := 4 |} ];
     host := [0; 0; 1; 1] |}.

(** The spec's 2x2 single-channel input [[0, 1], [1, 0]]. *)
Definition checker_2x2 : buffer Q :=
  {| dims := [ {| dmin := 0; dextent := 2; dstride := 1 |};
               {| dmin := 0; dextent := 2; dstride := 2 |};
               {| dmin := 0; dextent := 1; dstride := 4 |} ];
     host := [0; 1; 1; 0] |}.

(** A flat 2x2 single-channel input of value 1/2. *)
Definition flat_2x2 : buffer Q :=
  {| dims := [ {| dmin := 0; dextent := 2; dstride := 1 |};
               {| dmin := 0; dextent := 2; dstride := 2 |};
               {| dmin := 0; dextent := 1; dstride := 4 |} ];
     host := [1 # 2; 1 # 2; 1 # 2; 1 # 2] |}.


(** ** Lemmas over [Q] *)

(** The value before the final clamp, in the order the flag selects. *)
Lemma output_Q (t : InterpolationType) (up : bool) (input : buffer Q) (s : Q) (x y c : Z) :
  output t up input s x y c =
  clamp (if up then resized_y_up t up input s x y c else resized_x_down t up input s x y c) (0 : Q) (1 : Q).
Proof. unfold output. now destruct up. Qed.

(** ** Properties of the Separable Resampler *)

(** C3: the order of the two passes does not change the result: for
    the same weight tables, resampling x then y and y then x give the
    same value at every output point (exact arithmetic).  The choice
    the code makes from [upsample] is a choice of schedule only. *)
Theorem resize_order_independent (t : InterpolationType) (up : bool) (input : buffer Q)
    (s : Q) (x y c : Z) :
  resized_y_up t up input s x y c == resized_x_down t up input s x y c.
Proof.
  unfold resized_y_up, resized_x_up, resized_x_down, resized_y_down. qops.
  apply hsum_separable.
Qed.

(** Whatever the flag, the output is the clamped value of the y-then-x
    order. *)
Lemma output_down (t : InterpolationType) (up : bool) (input : buffer Q) (s : Q) (x y c : Z) :
  output t up input s x y c == clamp (resized_x_down t up input s x y c) 0 1.
Proof.
  rewrite output_Q. destruct up; [| reflexivity].
  unfold resized_y_up, resized_x_up, resized_x_down, resized_y_down. qops.
  now rewrite hsum_separable.
Qed.

(** ** Helper lemmas: samples, weight tables, single passes *)

Lemma nth_error_Forall {A} (P : A -> Prop) (l : list A) (i : nat) (v : A) :
  Forall P l -> nth_error l i = Some v -> P v.
Proof.
  intros Hl Hi. rewrite Forall_forall in Hl. apply Hl. eapply nth_error_In, Hi.
Qed.

(** Every sample of an input with values in [0, 1] lies in [0, 1]. *)
Lemma clamped_sample_range (input : buffer Q) (x y c : Z) :
  Forall (fun v : Q => 0 <= v <= 1) (host input) ->
  0 <= clamped_sample input x y c <= 1.
Proof.
  intros Hin. unfold clamped_sample, clamped, repeat_edge, buf_read.
  destruct (coords_in_range _ _); [| cbn; lra].
  destruct (nth_error _ _) eqn:E; [exact (nth_error_Forall _ _ _ _ Hin E) | cbn; lra].
Qed.

(** The weight tables of the box and linear kernels, for a kernel
    scaling in (0, 1], are convex combinations. *)
Lemma normalized_kernel_convex (t : InterpolationType) (up : bool) (s : Q) (v : Z) :
  t = Box \/ t = Linear -> 0 < kernel_scaling up s <= 1 ->
  (forall r, 0 <= normalized_kernel t up s v r) /\
  hsum 0 (kernel_taps t up s) (normalized_kernel t up s v) == 1.
Proof.
  intros Ht Hk.
  assert (Hpos : 0 < kernel_sum t up s v).
  { destruct (box_linear_positive_tap t up s v Ht Hk) as (r & Hr & Hp).
    eapply Qlt_le_trans; [exact Hp |].
    apply hsum_ge_term; [intros; now apply unnormalized_box_linear_nonneg | exact Hr]. }
  split.
  - intros r. unfold normalized_kernel. qops.
    apply Qmult_le_0_compat; [| apply Qlt_le_weak, Qinv_lt_0_compat, Hpos].
    rewrite unnormalized_kernel_Q. apply box_linear_nonneg, Ht.
  - apply hsum_normalize. intros E. apply Qlt_not_eq in Hpos. apply Hpos.
    symmetry. exact E.
Qed.

(** One pass of a convex weight table over values in [0, 1] stays in
    [0, 1]. *)
Lemma pass_range (t : InterpolationType) (up : bool) (s : Q) (v : Z) (f : Z -> Q) :
  t = Box \/ t = Linear -> 0 < kernel_scaling up s <= 1 ->
  (forall u, 0 <= f u <= 1) ->
  0 <= hsum 0 (kernel_taps t up s)
         (fun r => normalized_kernel t up s v r * f (r + begin t up s v)%Z) <= 1.
Proof.
  intros Ht Hk Hf. destruct (normalized_kernel_convex t up s v Ht Hk) as [Hw Hs].
  apply hsum_convex; [intros; apply Hw | exact Hs | intros; apply Hf].
Qed.

(** ** Range of the output *)

(** C16: with the box or linear kernel, a kernel scaling in (0, 1] and an
    input in [0, 1], the resampled value already lies in [0, 1], so the
    final clamp leaves it unchanged. *)
Theorem output_convex_no_clamp (t : InterpolationType) (up : bool) (input : buffer Q)
    (s : Q) (x y c : Z) :
  t = Box \/ t = Linear -> 0 < kernel_scaling up s <= 1 ->
  Forall (fun v : Q => 0 <= v <= 1) (host input) ->
  0 <= resized_x_down t up input s x y c <= 1 /\
  output t up input s x y c == resized_x_down t up input s x y c.
Proof.
  intros Ht Hk Hin.
  assert (Hr : 0 <= resized_x_down t up input s x y c <= 1).
  { apply (pass_range t up s x (fun u => resized_y_down t up input s u y c) Ht Hk).
    intros u. apply (pass_range t up s y (fun u' => clamped_sample input u u' c) Ht Hk).
    intros u'. apply clamped_sample_range, Hin. }
  split; [exact Hr |]. rewrite output_down. apply clamp_Q_id, Hr.
Qed.

(** ** Flat images *)

(** Every sample of a flat input, read in bounds, is its value. *)
Lemma clamped_sample_const (input : buffer Q) (a : Q) (x y c : Z) :
  buffer_wf 3 input = true ->
  (0 < snd (dim_range input 0))%Z -> (0 < snd (dim_range input 1))%Z ->
  (fst (dim_range input 2) <= c < fst (dim_range input 2) + snd (dim_range input 2))%Z ->
  Forall (fun v : Q => v == a) (host input) ->
  clamped_sample input x y c == a.
Proof.
  intros Hwf Hx Hy Hc Hin.
  pose proof (clamped_coords_in_range input x y c Hwf Hx Hy Hc) as Hr.
  destruct (buf_read_in_range 3 input _ Hwf Hr) as [v Hv].
  unfold clamped_sample, clamped, repeat_edge. rewrite Hv.
  unfold buf_read in Hv. rewrite Hr in Hv. exact (nth_error_Forall _ _ _ _ Hin Hv).
Qed.

(** A pass whose samples all equal [a] gives [a], when the tap sum is
    not 0. *)
Lemma pass_const (t : InterpolationType) (up : bool) (s : Q) (v : Z) (f : Z -> Q) (a : Q) :
  ~ kernel_sum t up s v == 0 -> (forall u, f u == a) ->
  hsum 0 (kernel_taps t up s) (fun r => normalized_kernel t up s v r * f (r + begin t up s v)%Z)
  == a.
Proof.
  intros Hs Hf.
  rewrite (hsum_ext _ _ _ (fun r => a * normalized_kernel t up s v r))
    by (intros r _; rewrite Hf; ring).
  rewrite hsum_scale.
  assert (H1 : hsum 0 (kernel_taps t up s) (fun r => normalized_kernel t up s v r) == 1)
    by (apply hsum_normalize; exact Hs).
  rewrite H1. ring.
Qed.

(** C25: flat images are preserved: for a well-formed input whose every
    sample is the same [a] in [0, 1], every kernel, scale and flag, and
    tap sums that are not 0, the output is [a] everywhere. *)
Theorem output_constant (t : InterpolationType) (up : bool) (input : buffer Q) (s a : Q)
    (x y c : Z) :
  buffer_wf 3 input = true ->
  (0 < snd (dim_range input 0))%Z -> (0 < snd (dim_range input 1))%Z ->
  (fst (dim_range input 2) <= c < fst (dim_range input 2) + snd (dim_range input 2))%Z ->
  Forall (fun v : Q => v == a) (host input) -> 0 <= a <= 1 ->
  (forall v, ~ kernel_sum t up s v == 0) ->
  output t up input s x y c == a.
Proof.
  intros Hwf Hx Hy Hc Hin Ha Hs.
  assert (Hd : resized_x_down t up input s x y c == a).
  { unfold resized_x_down. qops.
    apply (pass_const t up s x (fun u => resized_y_down t up input s u y c) a (Hs x)). intros u.
    unfold resized_y_down. qops.
    apply (pass_const t up s y (fun u' => clamped_sample input u u' c) a (Hs y)). intros u'.
    apply clamped_sample_const; assumption. }
  rewrite output_down, Hd. apply clamp_Q_id, Ha.
Qed.

(** ** Scale 1 *)

Lemma kernel_scaling_one (up : bool) : kernel_scaling up 1 == 1.
Proof. now destruct up. Qed.

Lemma source_one (v : Z) : source 1 v == inject_Z v.
Proof. rewrite source_Q. field. Qed.

Lemma begin_one_range (t : InterpolationType) (up : bool) (v : Z) :
  (begin t up (1 : Q) v <= v < begin t up (1 : Q) v + taps (kernel_info t))%Z.
Proof.
  pose proof (begin_spec t up 1 v) as [Hlo Hhi].
  rewrite kernel_radius_Q, kernel_scaling_one, source_one in Hlo, Hhi.
  pose proof (kernel_info_taps_pos t) as Hn. rewrite Zle_Qle in Hn. qconst.
  assert (H1 : (2 * begin t up (1 : Q) v < 2 * v + 2)%Z) by (zq; qdiv_const; lra).
  assert (H2 : (2 * v < 2 * begin t up (1 : Q) v + 2 * taps (kernel_info t))%Z)
    by (zq; qdiv_const; lra).
  lia.
Qed.

(** At scale 1 every tap sits at an integer offset, so the unnormalised
    weights are the indicator of the output coordinate itself ... *)
Lemma unnormalized_kernel_one (t : InterpolationType) (up : bool) (v k : Z) :
  t <> Lanczos ->
  unnormalized_kernel t up 1 v k == if Z.eqb (k + begin t up (1 : Q) v) v then 1 else 0.
Proof.
  intros Ht. unfold unnormalized_kernel, info. qops. rewrite source_one, kernel_scaling_one.
  setoid_replace ((inject_Z (k + begin t up (1 : Q) v) - inject_Z v) * 1)
    with (inject_Z (k + begin t up (1 : Q) v - v)) by (rewrite inject_Z_sub; ring).
  destruct (Z.eqb_spec (k + begin t up (1 : Q) v) v) as [E | E].
  - replace (k + begin t up (1 : Q) v - v)%Z with 0%Z by lia. apply kernel_at_zero, Ht.
  - apply kernel_int_nonzero; [exact Ht | lia].
Qed.

(** ... which the window contains, so the tap sum is 1 ... *)
Lemma kernel_sum_one (t : InterpolationType) (up : bool) (v : Z) :
  t <> Lanczos -> kernel_sum t up 1 v == 1.
Proof.
  intros Ht. pose proof (begin_one_range t up v) as Hb. unfold kernel_sum.
  rewrite (kernel_taps_unit t up 1 (kernel_scaling_one up)).
  rewrite (hsum_single _ _ _ (v - begin t up (1 : Q) v)%Z) by
    (lia || (intros r Hr Hne; rewrite unnormalized_kernel_one by exact Ht;
             destruct (Z.eqb_spec (r + begin t up (1 : Q) v) v); [lia | reflexivity])).
  rewrite unnormalized_kernel_one by exact Ht.
  replace (v - begin t up (1 : Q) v + begin t up (1 : Q) v)%Z with v by lia.
  now rewrite Z.eqb_refl.
Qed.

(** ... and the normalised weights are the same indicator. *)
Lemma normalized_kernel_one (t : InterpolationType) (up : bool) (v k : Z) :
  t <> Lanczos ->
  normalized_kernel t up 1 v k == if Z.eqb (k + begin t up (1 : Q) v) v then 1 else 0.
Proof.
  intros Ht. unfold normalized_kernel. qops.
  rewrite kernel_sum_one, unnormalized_kernel_one by exact Ht.
  destruct (Z.eqb _ _); reflexivity.
Qed.

(** One pass at scale 1 reads the sample at the output coordinate. *)
Lemma pass_one (t : InterpolationType) (up : bool) (v : Z) (f : Z -> Q) :
  t <> Lanczos ->
  hsum 0 (kernel_taps t up (1 : Q)) (fun r => normalized_kernel t up 1 v r * f (r + begin t up (1 : Q) v)%Z)
  == f v.
Proof.
  intros Ht. pose proof (begin_one_range t up v) as Hb.
  rewrite (kernel_taps_unit t up 1 (kernel_scaling_one up)).
  rewrite (hsum_single _ _ _ (v - begin t up (1 : Q) v)%Z) by
    (lia || (intros r Hr Hne; rewrite normalized_kernel_one by exact Ht;
             destruct (Z.eqb_spec (r + begin t up (1 : Q) v) v); [lia | ring])).
  rewrite normalized_kernel_one by exact Ht.
  replace (v - begin t up (1 : Q) v + begin t up (1 : Q) v)%Z with v by lia.
  rewrite Z.eqb_refl. ring.
Qed.

(** C4: at scale factor 1 the pipeline is the identity for the box,
    linear and cubic kernels, whatever the [upsample] flag: the output
    is the edge-repeated input, clamped to [0, 1]. *)
Theorem resize_identity (t : InterpolationType) (up : bool) (input : buffer Q) (x y c : Z) :
  t <> Lanczos ->
  output t up input 1 x y c == clamp (clamped_sample input x y c) 0 1.
Proof.
  intros Ht.
  assert (Hx : resized_x_down t up input 1 x y c == clamped_sample input x y c).
  { unfold resized_x_down. qops.
    rewrite (hsum_ext _ _ _ (fun r => normalized_kernel t up 1 x r *
               clamped_sample input (r + begin t up (1 : Q) x)%Z y c)).
    - apply (pass_one t up x (fun u => clamped_sample input u y c) Ht).
    - intros r _. unfold resized_y_down. qops.
      now rewrite (pass_one t up y (fun u => clamped_sample input (r + begin t up (1 : Q) x)%Z u c) Ht). }
  now rewrite output_down, Hx.
Qed.

(** ** The box kernel at integer factors *)

Lemma Qdiv_unit_bounds (a m : Q) : 0 < m -> 0 < a -> a <= m -> 0 < a / m <= 1.
Proof.
  intros Hm Ha Ham. split.
  - apply Qlt_shift_div_l; lra.
  - apply Qle_shift_div_r; lra.
Qed.

(** When upsampling by an integer factor [m], the window of the box
    kernel starts at the source pixel [v / m]. *)
Lemma begin_box_upsample (m v : Z) :
  (0 < m)%Z -> begin Box true (inject_Z m) v = (v / m)%Z.
Proof.
  intros Hm. rewrite begin_Q. change (kernel_scaling true (inject_Z m)) with (1 : Q).
  change (taps (kernel_info Box)) with 1%Z. apply Qceiling_spec. rewrite source_Q.
  pose proof (Z.div_mod v m ltac:(lia)) as Hv. pose proof (Z.mod_pos_bound v m Hm) as Hr.
  set (q := (v / m)%Z) in *. set (r := (v mod m)%Z) in *.
  assert (HM : 0 < inject_Z m) by (rewrite Zlt_Qlt in Hm; exact Hm).
  assert (Hr0 : 0 <= inject_Z r) by (change 0 with (inject_Z 0); rewrite <- Zle_Qle; lia).
  assert (Hr1 : inject_Z r + 1 <= inject_Z m)
    by (change 1 with (inject_Z 1); rewrite <- inject_Z_plus, <- Zle_Qle; lia).
  assert (Hsplit : (inject_Z v + (1 # 2)) / inject_Z m ==
                   inject_Z q + (inject_Z r + (1 # 2)) / inject_Z m).
  { rewrite Hv at 1. rewrite inject_Z_plus, inject_Z_mult. field. lra. }
  destruct (Qdiv_unit_bounds (inject_Z r + (1 # 2)) (inject_Z m)) as [D0 D1]; try lra.
  rewrite Hsplit, inject_Z_sub. qconst. qdiv_const. lra.
Qed.

(** The single weight of the box kernel without widening is 1. *)
Lemma pass_box_unit (up : bool) (s : Q) (v : Z) (f : Z -> Q) :
  kernel_scaling up s == 1 ->
  hsum 0 (kernel_taps Box up s)
    (fun r => normalized_kernel Box up s v r * f (r + begin Box up s v)%Z)
  == f (begin Box up s v).
Proof.
  intros Hk.
  assert (Hu : unnormalized_kernel Box up s v 0 == 1).
  { pose proof (first_offset_range Box up s v ltac:(rewrite Hk; reflexivity)) as Hr.
    rewrite unnormalized_kernel_Q. rewrite Hk in Hr |- *.
    change (taps (kernel_info Box)) with 1%Z in Hr.
    change (kernel (kernel_info Box)) with (@kernel_box Q _).
    apply box_inside. qconst. apply Qabs_Qle_condition. lra. }
  assert (Hs : kernel_sum Box up s v == 1).
  { unfold kernel_sum. rewrite (kernel_taps_unit Box up s Hk).
    change (taps (kernel_info Box)) with 1%Z. now rewrite hsum_0_1. }
  rewrite (kernel_taps_unit Box up s Hk). change (taps (kernel_info Box)) with 1%Z.
  rewrite hsum_0_1. unfold normalized_kernel. qops.
  rewrite Hu, Hs, Z.add_0_l. field.
Qed.

(** C17: with the box kernel, upsampling by an integer factor [m] is
    nearest-neighbour sampling: output pixel [(x, y)] is input pixel
    [(x / m, y / m)] (edge-repeated, clamped to [0, 1]). *)
Theorem box_upsample_nearest (m : Z) (input : buffer Q) (x y c : Z) :
  (1 <= m)%Z ->
  output Box true input (inject_Z m) x y c ==
  clamp (clamped_sample input (x / m) (y / m) c) 0 1.
Proof.
  intros Hm. rewrite output_Q. apply clamp_Q_Proper; [| reflexivity | reflexivity].
  unfold resized_y_up. qops.
  rewrite (pass_box_unit true (inject_Z m) y (fun u => resized_x_up Box true input (inject_Z m) x u c))
    by reflexivity.
  unfold resized_x_up. qops.
  rewrite (pass_box_unit true (inject_Z m) x (fun u => clamped_sample input u _ c)) by reflexivity.
  rewrite !begin_box_upsample by lia. reflexivity.
Qed.

(** When downsampling by an integer factor [p] (scale [1/p]), the box
    window of output [v] starts at source pixel [p * v] ... *)
Lemma begin_box_downsample (p : positive) (v : Z) :
  begin Box false (1 # p) v = (Zpos p * v)%Z.
Proof.
  rewrite begin_Q. change (kernel_scaling false (1 # p)) with (1 # p).
  change (taps (kernel_info Box)) with 1%Z. apply Qceiling_spec. rewrite source_Q.
  unfold Qdiv. change (Qinv (1 # p)) with (inject_Z (Zpos p)).
  rewrite inject_Z_sub, inject_Z_mult. qconst. lra.
Qed.

(** ... and has [p] taps ... *)
Lemma taps_box_downsample (p : positive) : kernel_taps Box false (1 # p) = Zpos p.
Proof.
  rewrite kernel_taps_Q. change (kernel_scaling false (1 # p)) with (1 # p).
  rewrite (Qceiling_comp _ (inject_Z (Zpos p)))
    by (unfold Qdiv; change (Qinv (1 # p)) with (inject_Z (Zpos p));
        change (taps (kernel_info Box)) with 1%Z; qconst; ring).
  apply Qceiling_Z.
Qed.

(** ... each of weight [1/p]. *)
Lemma normalized_box_downsample (p : positive) (v k : Z) :
  (0 <= k < Zpos p)%Z -> normalized_kernel Box false (1 # p) v k == 1 # p.
Proof.
  assert (Hu : forall k, (0 <= k < Zpos p)%Z -> unnormalized_kernel Box false (1 # p) v k == 1).
  { intros k' Hk'. rewrite unnormalized_kernel_Q, begin_box_downsample, source_Q.
    change (kernel_scaling false (1 # p)) with (1 # p).
    change (kernel (kernel_info Box)) with (@kernel_box Q _). apply box_inside.
    assert (HP : 0 < inject_Z (Zpos p)) by reflexivity.
    assert (Hk0 : 0 <= inject_Z k') by (change 0 with (inject_Z 0); rewrite <- Zle_Qle; lia).
    assert (Hk1 : inject_Z k' + 1 <= inject_Z (Zpos p))
      by (change 1 with (inject_Z 1); rewrite <- inject_Z_plus, <- Zle_Qle; lia).
    setoid_replace ((inject_Z (Zpos p * v) - ((inject_Z v + (1 # 2)) / (1 # p) - (1 # 2))) * (1 # p)
                    + inject_Z k' * (1 # p))
      with ((inject_Z k' + (1 # 2)) / inject_Z (Zpos p) - (1 # 2))
      by (rewrite inject_Z_mult; unfold Qdiv; change (Qinv (1 # p)) with (inject_Z (Zpos p));
          change (1 # p) with (Qinv (inject_Z (Zpos p))); field; lra).
    destruct (Qdiv_unit_bounds (inject_Z k' + (1 # 2)) (inject_Z (Zpos p))) as [D0 D1]; try lra.
    apply Qabs_Qle_condition. lra. }
  intros Hk. unfold normalized_kernel. qops. rewrite (Hu k Hk).
  unfold kernel_sum. rewrite taps_box_downsample.
  rewrite (hsum_ext _ _ _ (fun _ => 1)) by (intros r Hr; apply Hu; lia).
  rewrite hsum_const by lia. change (1 # p) with (Qinv (inject_Z (Zpos p))). field.
  discriminate.
Qed.

Lemma pass_box_downsample (p : positive) (v : Z) (f : Z -> Q) :
  hsum 0 (kernel_taps Box false (1 # p))
    (fun r => normalized_kernel Box false (1 # p) v r * f (r + begin Box false (1 # p) v)%Z)
  == (1 # p) * hsum 0 (Zpos p) (fun r => f (r + Zpos p * v)%Z).
Proof.
  rewrite taps_box_downsample, <- hsum_scale. apply hsum_ext. intros r Hr.
  rewrite normalized_box_downsample, begin_box_downsample by lia. reflexivity.
Qed.

(** C18: with the box kernel, downsampling by an integer factor [p]
    (scale [1/p], [upsample] false) is the area average: output pixel
    [(x, y)] is the mean of the [p x p] block of input pixels starting at
    [(p * x, p * y)], clamped to [0, 1]. *)
Theorem box_downsample_average (p : positive) (input : buffer Q) (x y c : Z) :
  output Box false input (1 # p) x y c ==
  clamp ((1 # p * p) * hsum 0 (Zpos p) (fun i => hsum 0 (Zpos p)
           (fun j => clamped_sample input (i + Zpos p * x) (j + Zpos p * y) c))) 0 1.
Proof.
  rewrite output_Q. apply clamp_Q_Proper; [| reflexivity | reflexivity].
  unfold resized_x_down. qops.
  rewrite (pass_box_downsample p x (fun u => resized_y_down Box false input (1 # p) u y c)).
  rewrite (hsum_ext _ _ _ (fun i => (1 # p) * hsum 0 (Zpos p)
             (fun j => clamped_sample input (i + Zpos p * x) (j + Zpos p * y) c))).
  - rewrite hsum_scale. change (1 # p * p) with ((1 # p) * (1 # p)). ring.
  - intros i _. unfold resized_y_down. qops.
    apply (pass_box_downsample p y (fun u => clamped_sample input (i + Zpos p * x)%Z u c)).
Qed.

(** ** The linear kernel without widening *)

(** Without widening the linear window has two taps, [begin] and
    [begin + 1], around the source coordinate, weighted by their
    distances to it. *)
Lemma pass_linear_begin (up : bool) (s : Q) (v : Z) (f : Z -> Q) :
  kernel_scaling up s == 1 ->
  let b := inject_Z (begin Linear up s v) in
  b < source s v <= b + 1 /\
  hsum 0 (kernel_taps Linear up s)
    (fun r => normalized_kernel Linear up s v r * f (r + begin Linear up s v)%Z)
  == (b + 1 - source s v) * f (begin Linear up s v) +
     (source s v - b) * f (begin Linear up s v + 1)%Z.
Proof.
  intros Hk b. pose proof (first_offset_range Linear up s v ltac:(rewrite Hk; reflexivity)) as Hr.
  rewrite Hk in Hr. change (taps (kernel_info Linear)) with 2%Z in Hr. qconst.
  fold b in Hr. split; [lra |].
  assert (Hu : forall k, unnormalized_kernel Linear up s v k ==
                         kernel_linear (b - source s v + inject_Z k)).
  { intros k. rewrite unnormalized_kernel_Q, Hk.
    change (kernel (kernel_info Linear)) with (@kernel_linear Q _).
    apply kernel_linear_Proper. unfold b. ring. }
  assert (Hs : kernel_sum Linear up s v == 1).
  { unfold kernel_sum. rewrite (hsum_ext _ _ _ (fun k => kernel_linear (b - source s v + inject_Z k)))
      by (intros k _; apply Hu).
    rewrite (kernel_taps_unit Linear up s Hk). apply linear_partition. lra. }
  rewrite (kernel_taps_unit Linear up s Hk). change (taps (kernel_info Linear)) with 2%Z.
  rewrite hsum_0_2. unfold normalized_kernel. qops. rewrite !Hu, Hs. qconst.
  rewrite !linear_inside by (qabs_simpl; lra). qabs_simpl.
  rewrite Z.add_0_l, (Z.add_comm 1). field.
Qed.

(** The same value for every integer [j] with the source coordinate in
    [j, j + 1]: linear interpolation between [f j] and [f (j + 1)]. *)
Lemma pass_linear_unit (up : bool) (s : Q) (v j : Z) (f : Z -> Q) :
  kernel_scaling up s == 1 ->
  inject_Z j <= source s v <= inject_Z j + 1 ->
  hsum 0 (kernel_taps Linear up s)
    (fun r => normalized_kernel Linear up s v r * f (r + begin Linear up s v)%Z)
  == (inject_Z j + 1 - source s v) * f j + (source s v - inject_Z j) * f (j + 1)%Z.
Proof.
  intros Hk Hj. destruct (pass_linear_begin up s v f Hk) as [Hb ->].
  set (b := begin Linear up s v) in *.
  assert (Hj1 : (j <= b + 1)%Z) by (rewrite Zle_Qle, inject_Z_plus; qconst; lra).
  assert (Hj2 : (b < j + 1)%Z) by (rewrite Zlt_Qlt, inject_Z_plus; qconst; lra).
  destruct (Z.eq_dec j b) as [-> | Hne]; [reflexivity |].
  assert (Ej : j = (b + 1)%Z) by lia. subst j. rewrite inject_Z_plus in *. qconst.
  assert (Es : source s v == inject_Z b + 1) by lra. rewrite Es. ring.
Qed.

(** C15: with upsampling, the linear kernel is bilinear interpolation,
    at any scale factor: if the source coordinates
    [sx = (x + 1/2) / s - 1/2] and [sy = (y + 1/2) / s - 1/2] of output
    pixel [(x, y)] lie in [[i, i + 1]] and [[j, j + 1]], the output is the
    bilinear interpolation, at [(sx, sy)], of the four edge-repeated
    input pixels [(i, j)], [(i + 1, j)], [(i, j + 1)], [(i + 1, j + 1)],
    clamped to [0, 1]. *)
Theorem linear_upsample_bilinear (s : Q) (input : buffer Q) (x y c i j : Z) :
  let sx := (inject_Z x + (1 # 2)) / s - (1 # 2) in
  let sy := (inject_Z y + (1 # 2)) / s - (1 # 2) in
  let P u w := clamped_sample input u w c in
  inject_Z i <= sx <= inject_Z i + 1 -> inject_Z j <= sy <= inject_Z j + 1 ->
  output Linear true input s x y c ==
  clamp ((inject_Z j + 1 - sy) * ((inject_Z i + 1 - sx) * P i j + (sx - inject_Z i) * P (i + 1)%Z j) +
         (sy - inject_Z j) * ((inject_Z i + 1 - sx) * P i (j + 1)%Z +
                              (sx - inject_Z i) * P (i + 1)%Z (j + 1)%Z)) 0 1.
Proof.
  intros sx sy P Hi Hj. rewrite output_Q. apply clamp_Q_Proper; [| reflexivity | reflexivity].
  unfold resized_y_up. qops.
  rewrite (pass_linear_unit true s y j (fun u => resized_x_up Linear true input s x u c))
    by (reflexivity || exact Hj).
  unfold resized_x_up. qops.
  rewrite !(pass_linear_unit true s x i (fun u => clamped_sample input u _ c))
    by (reflexivity || exact Hi).
  reflexivity.
Qed.

(** ** Witnesses *)

Lemma output_convex_no_clamp_witness :
  (Linear = Box \/ Linear = Linear) /\ 0 < kernel_scaling false (1 # 2) <= 1 /\
  Forall (fun v : Q => 0 <= v <= 1) (host step_edge) /\
  0 <= resized_x_down Linear false step_edge (1 # 2) 1 0 0 <= 1 /\
  output Linear false step_edge (1 # 2) 1 0 0 == resized_x_down Linear false step_edge (1 # 2) 1 0 0.
Proof.
  assert (Hk : 0 < kernel_scaling false (1 # 2) <= 1) by (split; vm_compute; try discriminate; reflexivity).
  assert (Hin : Forall (fun v : Q => 0 <= v <= 1) (host step_edge))
    by (repeat constructor; vm_compute; discriminate).
  split; [now right |]. split; [exact Hk |]. split; [exact Hin |].
  apply output_convex_no_clamp; [now right | exact Hk | exact Hin].
Defined.

Lemma resize_identity_witness :
  Cubic <> Lanczos /\
  output Cubic true step_edge 1 2 0 0 == clamp (clamped_sample step_edge 2 0 0) 0 1.
Proof.
  split; [discriminate |]. apply resize_identity. discriminate.
Defined.

Lemma box_upsample_nearest_witness :
  (1 <= 3)%Z /\
  output Box true checker_2x2 (inject_Z 3) 4 1 0 == clamp (clamped_sample checker_2x2 (4 / 3) (1 / 3) 0) 0 1.
Proof.
  split; [lia |]. apply box_upsample_nearest. lia.
Defined.

Lemma output_constant_witness :
  buffer_wf 3 flat_2x2 = true /\ (0 < snd (dim_range flat_2x2 0))%Z /\
  (0 < snd (dim_range flat_2x2 1))%Z /\
  (fst (dim_range flat_2x2 2) <= 0 < fst (dim_range flat_2x2 2) + snd (dim_range flat_2x2 2))%Z /\
  Forall (fun v : Q => v == 1 # 2) (host flat_2x2) /\ 0 <= 1 # 2 <= 1 /\
  (forall v, ~ kernel_sum Cubic true 1 v == 0) /\
  output Cubic true flat_2x2 1 7 (-3) 0 == 1 # 2.
Proof.
  assert (Hwf : buffer_wf 3 flat_2x2 = true) by reflexivity.
  assert (Hx : (0 < snd (dim_range flat_2x2 0))%Z) by (cbn; lia).
  assert (Hy : (0 < snd (dim_range flat_2x2 1))%Z) by (cbn; lia).
  assert (Hc : (fst (dim_range flat_2x2 2) <= 0 < fst (dim_range flat_2x2 2) + snd (dim_range flat_2x2 2))%Z)
    by (cbn; lia).
  assert (Hin : Forall (fun v : Q => v == 1 # 2) (host flat_2x2))
    by (repeat constructor).
  assert (Ha : 0 <= 1 # 2 <= 1) by (split; vm_compute; discriminate).
  assert (Hs : forall v, ~ kernel_sum Cubic true 1 v == 0).
  { intros v. rewrite (kernel_sum_one Cubic true v ltac:(discriminate)). discriminate. }
  do 7 (split; [assumption |]).
  exact (output_constant Cubic true flat_2x2 1 (1 # 2) 7 (-3) 0 Hwf Hx Hy Hc Hin Ha Hs).
Defined.

Lemma linear_upsample_bilinear_witness :
  inject_Z 1 <= (inject_Z 3 + (1 # 2)) / 2 - (1 # 2) <= inject_Z 1 + 1 /\
  inject_Z 0 <= (inject_Z 2 + (1 # 2)) / 2 - (1 # 2) <= inject_Z 0 + 1 /\
  output Linear true checker_2x2 2 3 2 0 ==
  clamp ((inject_Z 0 + 1 - ((inject_Z 2 + (1 # 2)) / 2 - (1 # 2))) *
           ((inject_Z 1 + 1 - ((inject_Z 3 + (1 # 2)) / 2 - (1 # 2))) * clamped_sample checker_2x2 1 0 0 +
            ((inject_Z 3 + (1 # 2)) / 2 - (1 # 2) - inject_Z 1) * clamped_sample checker_2x2 2 0 0) +
         ((inject_Z 2 + (1 # 2)) / 2 - (1 # 2) - inject_Z 0) *
           ((inject_Z 1 + 1 - ((inject_Z 3 + (1 # 2)) / 2 - (1 # 2))) * clamped_sample checker_2x2 1 1 0 +
            ((inject_Z 3 + (1 # 2)) / 2 - (1 # 2) - inject_Z 1) * clamped_sample checker_2x2 2 1 0)) 0 1.
Proof.
  assert (Hi : inject_Z 1 <= (inject_Z 3 + (1 # 2)) / 2 - (1 # 2) <= inject_Z 1 + 1)
    by (split; vm_compute; discriminate).
  assert (Hj : inject_Z 0 <= (inject_Z 2 + (1 # 2)) / 2 - (1 # 2) <= inject_Z 0 + 1)
    by (split; vm_compute; discriminate).
  split; [exact Hi |]. split; [exact Hj |].
  exact (linear_upsample_bilinear 2 checker_2x2 3 2 0 1 0 Hi Hj).
Defined.
