(* ===== verification/LanczosR.v ===== *)
(** * The Lanczos kernel over the reals (resize_generator.cpp, lines 30-39)

    [FloatR] instantiates [Prelude.FloatOps] with the real numbers: exact
    arithmetic and the true [sin].  The code's constant [float(M_PI)] is
    the float nearest pi, [pi_f = 13176795 / 2^22], and is modelled as
    that value, not as pi.  The Lanczos kernel depends on [sin], so its
    properties are stated here.

    The spec (4.1) defines the kernel with the normalised sinc,
    [sinc(x) = sin(pi x) / (pi x)], value 1 at 0 (removable singularity).
    The code's [sinc] is [sin(pi_f x) / x], which tends to [pi_f], not
    1, at 0; the code sets the kernel to 1 at 0.  The kernel is
    therefore discontinuous at 0 (its value there is 1, its values
    nearby exceed 3), and whenever a tap falls exactly on a source pixel
    that pixel is weighted less than its neighbours.  Downsampling by 3
    hits this at every output pixel. *)

From Stdlib Require Import ZArith QArith Reals Ratan Lra Psatz Qreals List.
Import ListNotations.
From S2P Require Import Prelude Kernels Weights.
Open Scope halide_scope.

(** [float(M_PI)]: the float nearest pi. *)
Definition pi_f : R := Q2R (13176795 # 4194304).

(** [cast<int>(ceil(x))] over [R]: [up x] is the least integer above [x]. *)
Definition Rceil (x : R) : Z := (1 - up (- x))%Z.

#[export] Instance FloatR : FloatOps R := {|
  f_lit := Q2R;
  f_of_int := IZR;
  f_add := Rplus;
  f_sub := Rminus;
  f_mul := Rmult;
  f_div := Rdiv;
  f_abs := Rabs;
  f_min := Rmin;
  f_max := Rmax;
  f_lt x y := if Rlt_dec x y then true else false;
  f_le x y := if Rle_dec x y then true else false;
  f_eqb x y := if Req_EM_T x y then true else false;
  f_ceil := Rceil;
  f_sin := sin;
  f_pi := pi_f
|}.

(** Unfold the instance's operations to the [R] ones. *)
Ltac rops :=
  cbn [FloatR f_lit f_of_int f_add f_sub f_mul f_div f_abs f_min f_max
       f_lt f_le f_eqb f_ceil f_sin f_pi] in *.

(** Case on every real comparison of the goal. *)
Ltac rcase :=
  unfold select;
  repeat (match goal with
          | |- context [Rlt_dec ?a ?b] => destruct (Rlt_dec a b)
          | |- context [Rle_dec ?a ?b] => destruct (Rle_dec a b)
          | |- context [Req_dec_T ?a ?b] => destruct (Req_dec_T a b)
          end; cbn [orb andb]).

Open Scope R_scope.

(** The spec's Lanczos kernel, with the normalised sinc (a reference
    formula of the spec, not code). *)
Definition sinc_spec (x : R) : R := sin (PI * x) / (PI * x).

Definition lanczos_spec (t : R) : R :=
  if Req_EM_T t 0 then 1
  else if Rlt_dec (Rabs t) 3 then sinc_spec t * sinc_spec (t / 3) else 0.

(** ** Lemmas *)

Lemma Rceil_IZR (z : Z) : Rceil (IZR z) = z.
Proof.
  unfold Rceil. rewrite <- opp_IZR.
  rewrite <- (tech_up (IZR (- z)) (- z + 1)); [lia | |].
  - rewrite plus_IZR. lra.
  - rewrite plus_IZR. lra.
Qed.

Lemma PI_gt_3 : 3 < PI.
Proof. pose proof PI2_3_2. lra. Qed.

Lemma pi_f_bounds : 3 < pi_f < 4.
Proof. unfold pi_f, Q2R. cbn [Qnum Qden]. lra. Qed.

(** ** Bounds on [sin] and on the code's kernel near 0 *)

(** [sin a >= a - a^3 / 6] on [0, pi]. *)
Lemma sin_cubic_lb (a : R) : 0 <= a <= PI -> a - a ^ 3 / 6 <= sin a.
Proof.
  intros [H0 H1]. destruct (SIN a H0 H1) as [Hlb _].
  unfold sin_lb, sin_approx in Hlb. cbn [sum_f_R0] in Hlb. unfold sin_term in Hlb.
  rewrite !INR_IZR_INZ in Hlb.
  change (Z.of_nat (fact (2 * 0 + 1))) with 1%Z in Hlb.
  change (Z.of_nat (fact (2 * 1 + 1))) with 6%Z in Hlb.
  change (Z.of_nat (fact (2 * 2 + 1))) with 120%Z in Hlb.
  change (Z.of_nat (fact (2 * 3 + 1))) with 5040%Z in Hlb.
  cbn [pow Nat.mul Nat.add] in Hlb.
  pose proof PI_4 as Hpi.
  assert (Ha5 : 0 <= a * (a * (a * (a * (a * 1))))) by (repeat apply Rmult_le_pos; lra).
  assert (Ha2 : a * a <= 16) by nra.
  assert (0 <= a * (a * (a * (a * (a * 1)))) * (42 - a * a)) by (apply Rmult_le_pos; lra).
  cbn [pow]. nra.
Qed.

Lemma pi_cubic_bound_1 : 4 / 3 <= pi_f - pi_f ^ 3 / 24.
Proof.
  pose proof pi_f_bounds.
  assert (0 <= (4 - pi_f) * (pi_f * pi_f + 4 * pi_f - 8)) by (apply Rmult_le_pos; nra).
  cbn [pow]. nra.
Qed.

Lemma pi_cubic_bound_2 : 23 / 8 <= pi_f - pi_f ^ 3 / 216.
Proof.
  pose proof pi_f_bounds.
  assert (0 <= (pi_f - 3) * (207 - 3 * pi_f - pi_f * pi_f)) by (apply Rmult_le_pos; nra).
  cbn [pow]. nra.
Qed.

(** The two factors of the code's kernel, bounded below near 0. *)
Lemma sin_pi_x_lb (x : R) : 0 < x <= 1 / 2 -> 4 / 3 * x <= sin (pi_f * x).
Proof.
  intros Hx. pose proof PI_gt_3. pose proof pi_f_bounds. pose proof pi_cubic_bound_1.
  assert (Hs : pi_f * x - (pi_f * x) ^ 3 / 6 <= sin (pi_f * x)) by (apply sin_cubic_lb; nra).
  assert (Hx2 : pi_f ^ 3 * (x * x) <= pi_f ^ 3 / 4).
  { assert (0 < pi_f ^ 3) by (apply pow_lt; lra). assert (x * x <= 1 / 4) by nra.
    apply Rmult_le_compat_l with (r := pi_f ^ 3) in H3; lra. }
  assert (pi_f * x - (pi_f * x) ^ 3 / 6 = x * (pi_f - pi_f ^ 3 * (x * x) / 6)) by field.
  assert (4 / 3 <= pi_f - pi_f ^ 3 * (x * x) / 6) by lra.
  nra.
Qed.

Lemma sin_pi_x3_lb (x : R) : 0 < x <= 1 / 2 -> 23 / 24 * x <= sin (pi_f * (x / 3)).
Proof.
  intros Hx. pose proof PI_gt_3. pose proof pi_f_bounds. pose proof pi_cubic_bound_2.
  assert (Hs : pi_f * (x / 3) - (pi_f * (x / 3)) ^ 3 / 6 <= sin (pi_f * (x / 3)))
    by (apply sin_cubic_lb; split; [apply Rmult_le_pos; lra |];
        replace (pi_f * (x / 3)) with (pi_f * (x / 3) + 0) by ring; nra).
  assert (Hx2 : pi_f ^ 3 * (x * x) <= pi_f ^ 3 / 4).
  { assert (0 < pi_f ^ 3) by (apply pow_lt; lra). assert (x * x <= 1 / 4) by nra.
    apply Rmult_le_compat_l with (r := pi_f ^ 3) in H3; lra. }
  assert (pi_f * (x / 3) - (pi_f * (x / 3)) ^ 3 / 6 = x / 3 * (pi_f - pi_f ^ 3 * (x * x) / 54))
    by field.
  assert (23 / 8 <= pi_f - pi_f ^ 3 * (x * x) / 54) by lra.
  nra.
Qed.

(** The code's Lanczos kernel is even ([sin] is odd). *)
Lemma lanczos_even (x : R) : kernel_lanczos (- x) = kernel_lanczos x.
Proof.
  unfold kernel_lanczos, sinc. rops.
  replace (pi_f * - x) with (- (pi_f * x)) by ring.
  replace (pi_f * (- x / IZR 3)) with (- (pi_f * (x / IZR 3))) by (unfold Rdiv; ring).
  rewrite !sin_neg. rcase; try lra; try reflexivity.
  destruct (Req_dec_T x 0) as [-> | Hx0]; [lra |].
  field; repeat split; lra.
Qed.

(** The code's kernel at 0: the [select] on [x == 0]. *)
Lemma lanczos_at_zero : kernel_lanczos 0 = 1.
Proof. unfold kernel_lanczos. rops. rcase; lra. Qed.

(** Right of 0, up to 1/2, the code's kernel is above 3: it is
    [3 sin(pi x) sin(pi x / 3) / x^2], and the sines are bounded below by
    their cubic Taylor polynomials. *)
Lemma lanczos_near_zero (y : R) : 0 < y <= 1 / 2 -> 3 < kernel_lanczos y.
Proof.
  intros Hy. pose proof (sin_pi_x_lb y Hy) as H1. pose proof (sin_pi_x3_lb y Hy) as H2.
  unfold kernel_lanczos, sinc. rops. rcase; try lra.
  replace (sin (pi_f * y) / y * (sin (pi_f * (y / IZR 3)) / (y / IZR 3)))
    with (3 * (sin (pi_f * y) * sin (pi_f * (y / 3))) / (y * y)) by (field; lra).
  assert (Hyy : 0 < y * y) by nra.
  assert (23 / 18 * (y * y) <= sin (pi_f * y) * sin (pi_f * (y / 3))) by nra.
  apply Rmult_lt_reg_r with (r := y * y); [exact Hyy |].
  replace (3 * (sin (pi_f * y) * sin (pi_f * (y / 3))) / (y * y) * (y * y))
    with (3 * (sin (pi_f * y) * sin (pi_f * (y / 3)))) by (field; lra).
  nra.
Qed.

(** The spec's kernel near 0: the normalised sinc lies in (0, 1) on
    (0, 1/2], since [0 < sin a < a] for [0 < a < pi]. *)
Lemma sinc_spec_unit (y : R) : 0 < y <= 1 / 2 -> 0 < sinc_spec y < 1.
Proof.
  intros Hy. pose proof PI_gt_3. pose proof PI_4. unfold sinc_spec.
  assert (Ha : 0 < PI * y) by nra.
  pose proof (sin_gt_0 (PI * y) Ha ltac:(nra)) as Hs. pose proof (sin_lt_x (PI * y) Ha).
  unfold Rdiv. split; [apply Rmult_lt_0_compat; [lra | apply Rinv_0_lt_compat, Ha] |].
  apply (Rmult_lt_reg_r (PI * y)); [exact Ha |].
  rewrite Rmult_assoc, Rinv_l by lra. lra.
Qed.

Lemma sinc_spec_even (y : R) : sinc_spec (- y) = sinc_spec y.
Proof.
  unfold sinc_spec. rewrite Ropp_mult_distr_r_reverse, sin_neg.
  destruct (Req_dec y 0) as [-> | Hy]; [rewrite Rmult_0_r, sin_0, Ropp_0; reflexivity |].
  field. split; [exact Hy | pose proof PI_RGT_0; lra].
Qed.

Lemma lanczos_spec_near_zero (x : R) : 0 < Rabs x <= 1 / 2 -> 0 < lanczos_spec x < 1.
Proof.
  intros Hx.
  assert (Hpos : forall y, 0 < y <= 1 / 2 -> 0 < lanczos_spec y < 1).
  { intros y Hy. unfold lanczos_spec.
    destruct (Req_EM_T y 0) as [E | _]; [lra |].
    destruct (Rlt_dec (Rabs y) 3) as [_ | Hn]; [| rewrite Rabs_right in Hn by lra; lra].
    pose proof (sinc_spec_unit y Hy). pose proof (sinc_spec_unit (y / 3) ltac:(lra)).
    split; [apply Rmult_lt_0_compat; lra | nra]. }
  destruct (Rle_or_lt 0 x) as [Hnn | Hneg].
  - rewrite Rabs_right in Hx by lra. apply Hpos. lra.
  - rewrite Rabs_left in Hx by lra.
    replace (lanczos_spec x) with (lanczos_spec (- x)).
    + apply Hpos. lra.
    + unfold lanczos_spec. rewrite Rabs_Ropp.
      destruct (Req_EM_T (- x) 0), (Req_EM_T x 0); try lra.
      replace (- x / 3) with (- (x / 3)) by field. now rewrite !sinc_spec_even.
Qed.

(** C8: the code's Lanczos kernel jumps at 0: its value there is 1,
    while at every [x] with [0 < |x| <= 1/2] it exceeds 3.  The spec's
    kernel is 1 at 0 and stays below 1 at those points. *)
Theorem lanczos_jump_at_zero (x : R) :
  kernel_lanczos 0 = 1 /\ lanczos_spec 0 = 1 /\
  (0 < Rabs x <= 1 / 2 -> 3 < kernel_lanczos x /\ lanczos_spec x < 1).
Proof.
  split; [exact lanczos_at_zero |].
  split; [unfold lanczos_spec; destruct (Req_EM_T 0 0); [reflexivity | lra] |].
  intros Hx. split; [| apply lanczos_spec_near_zero, Hx].
  destruct (Rle_or_lt 0 x) as [Hnn | Hneg].
  - rewrite Rabs_right in Hx by lra. apply lanczos_near_zero. lra.
  - rewrite Rabs_left in Hx by lra. rewrite <- lanczos_even. apply lanczos_near_zero. lra.
Qed.

(** ** Consequence for downsampling by 3 *)

(** At scale 1/3 the window of output [v] starts at [3 v - 8]. *)
Lemma begin_lanczos_third (v : Z) : begin Lanczos false (/ 3) v = (3 * v - 8)%Z.
Proof.
  unfold begin, source, kernel_radius, kernel_scaling, info. rops.
  change (taps (kernel_info Lanczos)) with 6%Z.
  change ((1 # 2) * inject_Z 6)%Q with (6 # 2)%Q.
  rewrite <- (Rceil_IZR (3 * v - 8)). f_equal.
  rewrite minus_IZR, mult_IZR. unfold Rdiv. rewrite Rinv_inv. lra.
Qed.

Lemma unnormalized_lanczos_third (v k : Z) :
  unnormalized_kernel Lanczos false (/ 3) v k = kernel_lanczos ((IZR k - 9) / 3).
Proof.
  unfold unnormalized_kernel. rewrite begin_lanczos_third.
  unfold source, kernel_scaling, info. rops. change (kernel (kernel_info Lanczos)) with (@kernel_lanczos R _).
  f_equal. rewrite plus_IZR, minus_IZR, mult_IZR. unfold Rdiv. rewrite Rinv_inv. lra.
Qed.

(** C9: downsampling by 3 with the Lanczos kernel ([upsample] false,
    scale 1/3) puts, for every output pixel, a tap exactly on the source
    pixel under the output centre: that tap gets weight 1 while its
    neighbour gets more than 3, so the centre pixel weighs less than a
    third of its neighbour (the spec's kernel would weigh it most). *)
Theorem lanczos_downsample3_center (v : Z) :
  unnormalized_kernel Lanczos false (/ 3) v 9 = 1 /\
  3 < unnormalized_kernel Lanczos false (/ 3) v 10 /\
  lanczos_spec 0 = 1 /\ lanczos_spec (/ 3) < 1.
Proof.
  rewrite !unnormalized_lanczos_third. split; [| split; [| split]].
  - replace ((IZR 9 - 9) / 3) with 0 by lra. exact lanczos_at_zero.
  - replace ((IZR 10 - 9) / 3) with (/ 3) by lra. apply lanczos_near_zero. lra.
  - unfold lanczos_spec. destruct (Req_EM_T 0 0); [reflexivity | lra].
  - apply lanczos_spec_near_zero. rewrite Rabs_right by lra. lra.
Qed.

(** ** Witnesses *)

Lemma lanczos_jump_at_zero_witness :
  0 < Rabs (/ 4) <= 1 / 2 /\ 3 < kernel_lanczos (/ 4) /\ lanczos_spec (/ 4) < 1.
Proof.
  assert (H : 0 < Rabs (/ 4) <= 1 / 2) by (rewrite Rabs_right by lra; lra).
  split; [exact H |]. apply (proj2 (proj2 (lanczos_jump_at_zero (/ 4))) H).
Defined.
