(* ===== verification/Schedule.v ===== *)
(** * The Execution Strategy (resize_generator.cpp, lines 132-175)

    [schedule()] does not change what any Func computes; it fixes the
    loop nest that writes the output buffer.  The output is tiled,
    [output.tile(x, y, xi, yi, fx, fy)] with [(fx, fy) = (16, 64)] when
    upsampling and [(32, 8)] otherwise; the loop over tile rows ([y]) is
    [parallel]; the innermost [xi] loop is vectorised.  The channel loop
    [c] of the output stays outermost and serial.

    A [split] of a loop over [[m, m + e)] by a factor [f] (Halide's
    default tail strategy for a pure definition, ShiftInwards) runs
    [ceil(e / f)] outer iterations; iteration [o] covers
    [[b, b + f)] with [b = min(m + o f, m + e - f)]: the last tile is
    shifted inwards and recomputes points of its neighbour.  A parallel
    loop runs its iterations as tasks whose writes interleave in any
    order ([interleaving]).  Realising the output stores [f x y c] at
    every point of the loop nest into the output buffer ([realize]),
    failing as soon as a store falls outside the buffer (Halide's bounds
    check on the output).

    Theorems: every execution of the schedule, whatever the interleaving
    of the parallel tasks, writes the pure function at every point of
    the output buffer, so all executions agree; an output narrower than
    a tile (or shorter than a tile row) is rejected, since the shifted
    tile starts before the buffer; an output whose height is not a
    multiple of the tile height has two parallel tile rows that store
    the same points.  The vectorisation of [xi] groups stores without
    changing which points are stored or their values, and is not
    modelled. *)

From Stdlib Require Import ZArith List Lia Bool Permutation.
From S2P Require Import Prelude Buffer.
Import ListNotations.
Local Open Scope Z_scope.

(** A point [(x, y, c)] of the output. *)
Definition point : Type := Z * Z * Z.

Definition point_eq_dec (p q : point) : {p = q} + {p <> q}.
Proof. repeat decide equality. Defined.

(** ** Loops *)

(** [output.tile(x, y, xi, yi, 16, 64)] when upsampling,
    [output.tile(x, y, xi, yi, 32, 8)] otherwise. *)
Definition output_tile (upsample : bool) : Z * Z :=
  if upsample then (16, 64) else (32, 8).

Section Split.
Variables (m e f : Z).

(** The extent of the outer loop of a split: [(e + f - 1) / f]. *)
Definition split_outer : Z := (e + f - 1) / f.

(** The first point of outer iteration [o], shifted inwards. *)
Definition split_base (o : Z) : Z := Z.min (m + o * f) (m + e - f).

(** The split loop: for each outer iteration, the points of its inner
    loop, in order. *)
Definition split_loop : list (list Z) :=
  map (fun o => map (fun i => split_base o + i) (rdom 0 f)) (rdom 0 split_outer).

End Split.

(** One task of [parallel(y)] for channel [c]: the tile row whose inner
    [y] points are [ys], looping over the x tiles, then [yi], then the
    vectorised [xi]. *)
Definition tile_row (xr : Z * Z) (fx c : Z) (ys : list Z) : list point :=
  flat_map (fun xs => flat_map (fun y => map (fun x => (x, y, c)) xs) ys)
    (split_loop (fst xr) (snd xr) fx).

(** The tasks of the parallel loop over the tile rows of channel [c]. *)
Definition row_tasks (xr yr : Z * Z) (fx fy c : Z) : list (list point) :=
  map (tile_row xr fx c) (split_loop (fst yr) (snd yr) fy).

(** The loop nest in its serial order: [c], [y] (tile rows), [x]
    (tiles), [yi], [xi]. *)
Definition output_loop_nest (xr yr cr : Z * Z) (fx fy : Z) : list point :=
  flat_map (fun c => concat (row_tasks xr yr fx fy c)) (rdom (fst cr) (snd cr)).

(** ** Parallel execution *)

(** The writes of parallel tasks interleave: each step runs the next
    write of some task. *)
Inductive interleaving {A : Type} : list (list A) -> list A -> Prop :=
| il_done ts : Forall (fun t => t = []) ts -> interleaving ts []
| il_step pre a rest post l :
    interleaving (pre ++ rest :: post) l ->
    interleaving (pre ++ (a :: rest) :: post) (a :: l).

(** An execution of the output loop nest: the channels in order, the
    tile rows of each channel in parallel. *)
Inductive output_execution (xr yr : Z * Z) (fx fy : Z) : list Z -> list point -> Prop :=
| ex_nil : output_execution xr yr fx fy [] []
| ex_chan c cs l l' :
    interleaving (row_tasks xr yr fx fy c) l ->
    output_execution xr yr fx fy cs l' ->
    output_execution xr yr fx fy (c :: cs) (l ++ l').

(** The executions of [Resize::schedule] on the output buffer [out]:
    the output's tile sizes for the flag, over the buffer's own x, y
    and channel ranges. *)
Definition schedule_execution {F : Type} (upsample : bool) (out : buffer F)
    (trace : list point) : Prop :=
  output_execution (dim_range out 0) (dim_range out 1)
    (fst (output_tile upsample)) (snd (output_tile upsample))
    (rdom (fst (dim_range out 2)) (snd (dim_range out 2))) trace.

(** ** Witness data *)

(** A dense 32 x 8 single-channel output, one downsampling tile. *)
Definition out_32x8 : buffer Z :=
  {| dims := [ {| dmin := 0; dextent := 32; dstride := 1 |};
               {| dmin := 0; dextent := 8; dstride := 32 |};
               {| dmin := 0; dextent := 1; dstride := 256 |} ];
     host := repeat 0 256 |}.

(** A dense 8 x 8 single-channel output, narrower than a tile. *)
Definition out_8x8 : buffer Z :=
  {| dims := [ {| dmin := 0; dextent := 8; dstride := 1 |};
               {| dmin := 0; dextent := 8; dstride := 8 |};
               {| dmin := 0; dextent := 1; dstride := 64 |} ];
     host := repeat 0 64 |}.

(** A dense 32 x 12 single-channel output: one and a half tile rows
    when downsampling. *)
Definition out_32x12 : buffer Z :=
  {| dims := [ {| dmin := 0; dextent := 32; dstride := 1 |};
               {| dmin := 0; dextent := 12; dstride := 32 |};
               {| dmin := 0; dextent := 1; dstride := 384 |} ];
     host := repeat 0 384 |}.

Definition serial_trace {F : Type} (up : bool) (out : buffer F) : list point :=
  output_loop_nest (dim_range out 0) (dim_range out 1) (dim_range out 2)
    (fst (output_tile up)) (snd (output_tile up)).

(** ** Realisation *)

Section Realize.
Context {F : Type}.
Variable f : Z -> Z -> Z -> F.

(** One store of the loop body [output(x, y, c) = f(x, y, c)]. *)
Definition store (ob : option (buffer F)) (p : point) : option (buffer F) :=
  match ob with
  | None => None
  | Some b => let '(x, y, c) := p in buf_write b [x; y; c] (f x y c)
  end.

(** Running the stores of a trace on the output buffer. *)
Definition realize (out : buffer F) (trace : list point) : option (buffer F) :=
  fold_left store trace (Some out).

End Realize.

(** ** Lemmas on loops *)

Lemma in_split_loop (m e f z : Z) :
  0 < f <= e -> In z (concat (split_loop m e f)) <-> m <= z < m + e.
Proof.
  intros Hf. unfold split_loop. rewrite in_concat. split.
  - intros (l & Hl & Hz). apply in_map_iff in Hl as (o & <- & Ho). apply in_rdom in Ho.
    apply in_map_iff in Hz as (i & <- & Hi). apply in_rdom in Hi.
    assert (0 <= o * f) by nia. unfold split_base. lia.
  - intros Hz. set (o := (z - m) / f).
    assert (Ho : 0 <= o < split_outer e f).
    { pose proof (Z.mul_div_le (z - m) f ltac:(lia)) as Hle. change ((z - m) / f) with o in Hle.
      unfold o, split_outer. split; [apply Z.div_pos; lia |].
      fold o. enough (o + 1 <= (e + f - 1) / f) by lia.
      apply Z.div_le_lower_bound; lia. }
    exists (map (fun i => split_base m e f o + i) (rdom 0 f)). split.
    + apply in_map_iff. exists o. split; [reflexivity | apply in_rdom; lia].
    + apply in_map_iff. exists (z - split_base m e f o). split; [lia |]. apply in_rdom.
      pose proof (Z.mod_pos_bound (z - m) f ltac:(lia)) as Hm.
      pose proof (Z.div_mod (z - m) f ltac:(lia)) as Hd. change ((z - m) / f) with o in Hd.
      unfold split_base. nia.
Qed.

(** A split of an extent [0 < e < f] starts before [m]. *)
Lemma split_loop_below (m e f : Z) :
  0 < e < f -> In (m + e - f) (concat (split_loop m e f)).
Proof.
  intros Hf. unfold split_loop. apply in_concat.
  exists (map (fun i => split_base m e f 0 + i) (rdom 0 f)). split.
  - apply in_map_iff. exists 0. split; [reflexivity |]. apply in_rdom.
    unfold split_outer. split; [lia |]. apply Z.div_str_pos. lia.
  - apply in_map_iff. exists 0. split; [unfold split_base; lia | apply in_rdom; lia].
Qed.

(** Every split of a positive extent has a point. *)
Lemma split_loop_nonempty (m e f : Z) :
  0 < f -> 0 < e -> exists z, In z (concat (split_loop m e f)).
Proof.
  intros Hf He. exists (split_base m e f 0). unfold split_loop. apply in_concat.
  exists (map (fun i => split_base m e f 0 + i) (rdom 0 f)). split.
  - apply in_map_iff. exists 0. split; [reflexivity |]. apply in_rdom.
    unfold split_outer. split; [lia |]. apply Z.div_str_pos. lia.
  - apply in_map_iff. exists 0. split; [lia | apply in_rdom; lia].
Qed.

Lemma in_row_tasks (xr yr : Z * Z) (fx fy c : Z) (p : point) :
  In p (concat (row_tasks xr yr fx fy c)) <->
  exists x y, p = (x, y, c) /\ In x (concat (split_loop (fst xr) (snd xr) fx)) /\
              In y (concat (split_loop (fst yr) (snd yr) fy)).
Proof.
  unfold row_tasks, tile_row. rewrite in_concat. split.
  - intros (l & Hl & Hp). apply in_map_iff in Hl as (ys & <- & Hys).
    apply in_flat_map in Hp as (xs & Hxs & Hp). apply in_flat_map in Hp as (y & Hy & Hp).
    apply in_map_iff in Hp as (x & <- & Hx).
    exists x, y. split; [reflexivity |]. split; apply in_concat; eauto.
  - intros (x & y & -> & Hx & Hy). apply in_concat in Hx as (xs & Hxs & Hx).
    apply in_concat in Hy as (ys & Hys & Hy).
    exists (tile_row xr fx c ys). split; [apply in_map; exact Hys |].
    apply in_flat_map. exists xs. split; [exact Hxs |].
    apply in_flat_map. exists y. split; [exact Hy |].
    apply in_map_iff. exists x. split; [reflexivity | exact Hx].
Qed.

Lemma in_tile_row (xr : Z * Z) (fx c : Z) (ys : list Z) (x y : Z) :
  In x (concat (split_loop (fst xr) (snd xr) fx)) -> In y ys -> In (x, y, c) (tile_row xr fx c ys).
Proof.
  intros Hx Hy. apply in_concat in Hx as (xs & Hxs & Hx). unfold tile_row.
  apply in_flat_map. exists xs. split; [exact Hxs |].
  apply in_flat_map. exists y. split; [exact Hy |].
  apply in_map_iff. exists x. auto.
Qed.

(** The last two outer iterations of a split whose extent is not a
    multiple of the factor both contain the point [m + e - f]: the last
    one is shifted inwards onto the one before. *)
Lemma split_last_overlap (m e f : Z) :
  0 < f < e -> e mod f <> 0 ->
  (2 <= Z.to_nat (split_outer e f))%nat /\
  In (m + e - f) (map (fun i => split_base m e f (0 + Z.of_nat (Z.to_nat (split_outer e f) - 2)) + i)
                      (rdom 0 f)) /\
  In (m + e - f) (map (fun i => split_base m e f (0 + Z.of_nat (Z.to_nat (split_outer e f) - 1)) + i)
                      (rdom 0 f)).
Proof.
  intros Hf Hm. unfold split_outer.
  pose proof (Z.div_mod (e + f - 1) f ltac:(lia)) as Hd.
  pose proof (Z.mod_pos_bound (e + f - 1) f ltac:(lia)) as Hr.
  pose proof (Z.div_mod e f ltac:(lia)) as Hd'.
  pose proof (Z.mod_pos_bound e f ltac:(lia)) as Hr'.
  set (q := (e + f - 1) / f) in *. set (r := (e + f - 1) mod f) in *.
  set (q' := e / f) in *. set (r' := e mod f) in *.
  assert (Hq : q = q' + 1) by nia.
  assert (H2 : 2 <= q) by nia.
  split; [lia |].
  rewrite !Nat2Z.inj_sub, !Z2Nat.id by lia. cbn [Z.of_nat Pos.of_succ_nat].
  split; apply in_map_iff; unfold split_base.
  - exists (e - (q - 1) * f). split; [lia |]. apply in_rdom. nia.
  - exists 0. split; [lia |]. apply in_rdom. lia.
Qed.

(** ** Lemmas on executions *)

(** Every interleaving of the tasks is a permutation of their writes. *)
Lemma interleaving_perm {A : Type} (ts : list (list A)) (l : list A) :
  interleaving ts l -> Permutation l (concat ts).
Proof.
  induction 1 as [ts Hts | pre a rest post l _ IH].
  - induction Hts as [| t ts -> _ IHts]; cbn; [constructor | exact IHts].
  - rewrite !concat_app in *. cbn in *. apply Permutation_cons_app. exact IH.
Qed.

Lemma interleaving_nil_cons {A : Type} (ts : list (list A)) (l : list A) :
  interleaving ts l -> interleaving ([] :: ts) l.
Proof.
  induction 1 as [ts Hts | pre a rest post l _ IH].
  - constructor. constructor; [reflexivity | exact Hts].
  - exact (il_step ([] :: pre) a rest post l IH).
Qed.

(** Running the tasks one after the other is one of the interleavings. *)
Lemma interleaving_serial {A : Type} (ts : list (list A)) : interleaving ts (concat ts).
Proof.
  induction ts as [| t ts IH]; cbn; [constructor; constructor |].
  induction t as [| a t IHt]; cbn; [now apply interleaving_nil_cons |].
  exact (il_step [] a t ts _ IHt).
Qed.

Lemma output_execution_perm (xr yr : Z * Z) (fx fy : Z) (cs : list Z) (trace : list point) :
  output_execution xr yr fx fy cs trace ->
  Permutation trace (flat_map (fun c => concat (row_tasks xr yr fx fy c)) cs).
Proof.
  induction 1 as [| c cs l l' Hl _ IH]; cbn; [constructor |].
  apply Permutation_app; [apply interleaving_perm, Hl | exact IH].
Qed.

(** The serial loop nest is an execution. *)
Lemma output_loop_nest_execution (xr yr cr : Z * Z) (fx fy : Z) :
  output_execution xr yr fx fy (rdom (fst cr) (snd cr)) (output_loop_nest xr yr cr fx fy).
Proof.
  unfold output_loop_nest. induction (rdom (fst cr) (snd cr)) as [| c cs IH]; cbn;
    constructor; [apply interleaving_serial | exact IH].
Qed.

(** The points an execution writes. *)
Lemma in_output_execution (xr yr : Z * Z) (fx fy : Z) (cs : list Z) (trace : list point)
    (x y c : Z) :
  output_execution xr yr fx fy cs trace ->
  In (x, y, c) trace <->
  In c cs /\ In x (concat (split_loop (fst xr) (snd xr) fx)) /\
  In y (concat (split_loop (fst yr) (snd yr) fy)).
Proof.
  intros Hex. pose proof (output_execution_perm _ _ _ _ _ _ Hex) as Hp.
  transitivity (In (x, y, c) (flat_map (fun c => concat (row_tasks xr yr fx fy c)) cs)).
  { split; apply Permutation_in; [exact Hp | now apply Permutation_sym]. }
  rewrite in_flat_map. split.
  - intros (c' & Hc & Hin). apply in_row_tasks in Hin as (x' & y' & E & Hx & Hy).
    injection E as -> -> ->. auto.
  - intros (Hc & Hx & Hy). exists c. split; [exact Hc |].
    apply in_row_tasks. eauto.
Qed.

(** ** Lemmas on realisation *)

Local Ltac case_in_cons :=
  match goal with
  | |- context [in_dec ?d ?a ?l] =>
      lazymatch l with _ :: _ => destruct (in_dec d a l) as [Hc | Hc] end
  end.

Lemma fold_store_none {F : Type} (f : Z -> Z -> Z -> F) (l : list point) :
  fold_left (store f) l None = None.
Proof. induction l; auto. Qed.

(** Realising a trace whose stores are all in bounds succeeds, and
    every point of the trace then holds [f]; the other elements are
    untouched. *)
Lemma realize_spec {F : Type} (f : Z -> Z -> Z -> F) (out : buffer F) (trace : list point) :
  buffer_wf 3 out = true -> offsets_injective (dims out) ->
  Forall (fun p : point => let '(x, y, c) := p in coords_in_range (dims out) [x; y; c] = true)
    trace ->
  exists out', realize f out trace = Some out' /\ dims out' = dims out /\
    forall x y c, buf_read out' [x; y; c] =
      if in_dec point_eq_dec (x, y, c) trace then Some (f x y c) else buf_read out [x; y; c].
Proof.
  unfold realize. revert out.
  induction trace as [| [[px py] pc] trace IH]; intros out Hwf Hinj Hin; cbn [fold_left store].
  - exists out. split; [reflexivity |]. split; [reflexivity | reflexivity].
  - inversion Hin as [| ? ? Hp Hrest]; subst.
    destruct (buf_write out [px; py; pc] (f px py pc)) as [b1 |] eqn:Hw;
      [| unfold buf_write in Hw; rewrite Hp in Hw; discriminate].
    destruct (buf_write_dims _ _ _ _ Hw) as [Hd _].
    rewrite <- Hd in Hinj, Hrest.
    assert (Hwf1 : buffer_wf 3 b1 = true) by (rewrite (buffer_wf_write _ _ _ _ _ Hw); exact Hwf).
    destruct (IH b1 Hwf1 Hinj Hrest) as (out' & Hr & Hd' & Hread).
    rewrite Hd in Hinj.
    exists out'. split; [exact Hr |]. split; [congruence |]. intros x y c.
    rewrite Hread, (buf_read_write 3 out b1 _ _ _ Hwf Hinj Hw).
    destruct (in_dec point_eq_dec (x, y, c) trace) as [Hi | Hni].
    + case_in_cons; [reflexivity | exfalso; apply Hc; now right].
    + destruct (list_eq_dec Z.eq_dec [px; py; pc] [x; y; c]) as [E | E].
      * injection E as -> -> ->. case_in_cons; [reflexivity | exfalso; apply Hc; now left].
      * case_in_cons; [| reflexivity].
        destruct Hc as [E' | Hc]; [injection E' as -> -> ->; congruence | contradiction].
Qed.

(** A store out of bounds makes the realisation fail. *)
Lemma realize_out_of_range {F : Type} (f : Z -> Z -> Z -> F) (out : buffer F)
    (trace : list point) (x y c : Z) :
  In (x, y, c) trace -> coords_in_range (dims out) [x; y; c] = false ->
  realize f out trace = None.
Proof.
  unfold realize. revert out.
  induction trace as [| [[px py] pc] trace IH]; intros out Hin Hout; [destruct Hin |]. cbn.
  destruct Hin as [E | Hin].
  - injection E as -> -> ->. unfold buf_write at 1. rewrite Hout. apply fold_store_none.
  - destruct (buf_write out [px; py; pc] (f px py pc)) as [b1 |] eqn:Hw;
      [| apply fold_store_none].
    apply IH; [exact Hin |]. destruct (buf_write_dims _ _ _ _ Hw) as [-> _]. exact Hout.
Qed.

(** The points of an execution, when the tiles fit in the output. *)
Lemma in_schedule_execution {F : Type} (up : bool) (out : buffer F) (trace : list point)
    (d0 d1 d2 : dim) (x y c : Z) :
  dims out = [d0; d1; d2] ->
  fst (output_tile up) <= dextent d0 -> snd (output_tile up) <= dextent d1 ->
  schedule_execution up out trace ->
  In (x, y, c) trace <-> coords_in_range (dims out) [x; y; c] = true.
Proof.
  intros Hd Hx Hy Hex. destruct (dim_range_of _ _ _ _ Hd) as (E0 & E1 & E2).
  unfold schedule_execution in Hex. rewrite E0, E1, E2 in Hex. cbn [fst snd] in Hex.
  assert (0 < fst (output_tile up) /\ 0 < snd (output_tile up)) as [Hfx Hfy]
    by (destruct up; cbn; lia).
  rewrite (in_output_execution _ _ _ _ _ _ _ _ _ Hex), Hd, coords_in_range3, in_rdom.
  cbn [fst snd]. rewrite !in_split_loop by lia. tauto.
Qed.

(** A trace that stores exactly the points of the buffer realises [f]
    on the whole buffer. *)
Lemma realize_exact {F : Type} (f : Z -> Z -> Z -> F) (out : buffer F) (trace : list point) :
  buffer_wf 3 out = true -> offsets_injective (dims out) ->
  (forall x y c, In (x, y, c) trace <-> coords_in_range (dims out) [x; y; c] = true) ->
  exists out', realize f out trace = Some out' /\ dims out' = dims out /\
    forall x y c, coords_in_range (dims out) [x; y; c] = true ->
      buf_read out' [x; y; c] = Some (f x y c).
Proof.
  intros Hwf Hinj Hex.
  destruct (realize_spec f out trace Hwf Hinj) as (out' & Hr & Hd' & Hread).
  - apply Forall_forall. intros [[x y] c] Hin. apply Hex, Hin.
  - exists out'. split; [exact Hr |]. split; [exact Hd' |]. intros x y c Hin.
    rewrite Hread. destruct (in_dec point_eq_dec (x, y, c) trace) as [_ | Hn]; [reflexivity |].
    exfalso. apply Hn, Hex, Hin.
Qed.

(** An execution of the schedule stores exactly the points of the
    output buffer, when the tiles fit. *)
Lemma schedule_exact {F : Type} (up : bool) (out : buffer F) (trace : list point) :
  buffer_wf 3 out = true ->
  fst (output_tile up) <= snd (dim_range out 0) ->
  snd (output_tile up) <= snd (dim_range out 1) ->
  schedule_execution up out trace ->
  forall x y c, In (x, y, c) trace <-> coords_in_range (dims out) [x; y; c] = true.
Proof.
  intros Hwf Hx Hy Hex x y c.
  destruct (buffer_wf_dims3 _ Hwf) as (d0 & d1 & d2 & Hd).
  destruct (dim_range_of _ _ _ _ Hd) as (E0 & E1 & _). rewrite E0 in Hx. rewrite E1 in Hy.
  exact (in_schedule_execution up out trace d0 d1 d2 x y c Hd Hx Hy Hex).
Qed.

(** ** Properties of the Execution Strategy *)

(** C5: the schedule computes the pipeline: for a well-formed output
    buffer without aliasing, at least one tile wide and one tile row
    high, every execution of [Resize::schedule] (any interleaving of
    the parallel tile rows) succeeds and leaves [f x y c] at every point
    of the output, where [f] is the pure function the Funcs define. *)
Theorem schedule_realizes {F : Type} (f : Z -> Z -> Z -> F) (up : bool) (out : buffer F)
    (trace : list point) :
  buffer_wf 3 out = true -> offsets_injective (dims out) ->
  fst (output_tile up) <= snd (dim_range out 0) ->
  snd (output_tile up) <= snd (dim_range out 1) ->
  schedule_execution up out trace ->
  exists out', realize f out trace = Some out' /\ dims out' = dims out /\
    forall x y c, coords_in_range (dims out) [x; y; c] = true ->
      buf_read out' [x; y; c] = Some (f x y c).
Proof.
  intros Hwf Hinj Hx Hy Hex.
  exact (realize_exact f out trace Hwf Hinj (schedule_exact up out trace Hwf Hx Hy Hex)).
Qed.

(** All executions of the schedule agree: whatever the
    interleaving of the parallel tile rows, two executions leave output
    buffers that read the same at every coordinate. *)
Lemma schedule_deterministic {F : Type} (f : Z -> Z -> Z -> F) (up : bool) (out : buffer F)
    (t1 t2 : list point) :
  buffer_wf 3 out = true -> offsets_injective (dims out) ->
  fst (output_tile up) <= snd (dim_range out 0) ->
  snd (output_tile up) <= snd (dim_range out 1) ->
  schedule_execution up out t1 -> schedule_execution up out t2 ->
  exists o1 o2, realize f out t1 = Some o1 /\ realize f out t2 = Some o2 /\
    forall cs, buf_read o1 cs = buf_read o2 cs.
Proof.
  intros Hwf Hinj Hx Hy H1 H2.
  destruct (realize_exact f out t1 Hwf Hinj (schedule_exact up out t1 Hwf Hx Hy H1))
    as (o1 & R1 & D1 & V1).
  destruct (realize_exact f out t2 Hwf Hinj (schedule_exact up out t2 Hwf Hx Hy H2))
    as (o2 & R2 & D2 & V2).
  exists o1, o2. split; [exact R1 |]. split; [exact R2 |]. intros cs.
  destruct (coords_in_range (dims out) cs) eqn:Hin.
  - destruct (buffer_wf_dims3 _ Hwf) as (d0 & d1 & d2 & Hd).
    destruct cs as [| x [| y [| c [| z cs]]]]; [| | | now rewrite V1, V2 |];
      exfalso; rewrite Hd in Hin; cbn in Hin; rewrite ?andb_false_r in Hin; discriminate.
  - unfold buf_read. now rewrite D1, D2, Hin.
Qed.

(** Outputs smaller than a tile: some store of every execution is out
    of bounds. *)
Lemma small_output_realize_none {F : Type} (f : Z -> Z -> Z -> F) (up : bool)
    (out : buffer F) (trace : list point) :
  buffer_wf 3 out = true ->
  0 < snd (dim_range out 0) -> 0 < snd (dim_range out 1) -> 0 < snd (dim_range out 2) ->
  snd (dim_range out 0) < fst (output_tile up) \/ snd (dim_range out 1) < snd (output_tile up) ->
  schedule_execution up out trace ->
  realize f out trace = None.
Proof.
  intros Hwf H0 H1 H2 Hsmall Hex.
  destruct (buffer_wf_dims3 _ Hwf) as (d0 & d1 & d2 & Hd).
  destruct (dim_range_of _ _ _ _ Hd) as (E0 & E1 & E2).
  unfold schedule_execution in Hex. rewrite E0, E1, E2 in Hex. rewrite E0, E1, E2 in *.
  cbn [fst snd] in *.
  assert (0 < fst (output_tile up) /\ 0 < snd (output_tile up)) as [Hfx Hfy]
    by (destruct up; cbn; lia).
  destruct (split_loop_nonempty (dmin d0) (dextent d0) (fst (output_tile up)) Hfx H0) as [x0 Hx0].
  destruct (split_loop_nonempty (dmin d1) (dextent d1) (snd (output_tile up)) Hfy H1) as [y0 Hy0].
  assert (Hc : In (dmin d2) (rdom (dmin d2) (dextent d2))) by (apply in_rdom; lia).
  destruct Hsmall as [Hs | Hs].
  - apply (realize_out_of_range f out trace (dmin d0 + dextent d0 - fst (output_tile up)) y0 (dmin d2)).
    + apply (in_output_execution _ _ _ _ _ _ _ _ _ Hex). cbn [fst snd].
      split; [exact Hc |]. split; [apply split_loop_below; lia | exact Hy0].
    + rewrite Hd. cbn. replace (dmin d0 <=? _) with false by (symmetry; apply Z.leb_gt; lia).
      reflexivity.
  - apply (realize_out_of_range f out trace x0 (dmin d1 + dextent d1 - snd (output_tile up)) (dmin d2)).
    + apply (in_output_execution _ _ _ _ _ _ _ _ _ Hex). cbn [fst snd].
      split; [exact Hc |]. split; [exact Hx0 | apply split_loop_below; lia].
    + rewrite Hd. cbn. replace (dmin d1 <=? _) with false by (symmetry; apply Z.leb_gt; lia).
      now rewrite andb_false_r.
Qed.

(** C13: an output narrower than a tile, or shorter than a tile row,
    is rejected: the shifted first tile starts before the buffer, so
    every execution of the schedule stores out of bounds and fails. *)
Theorem schedule_small_output_fails {F : Type} (f : Z -> Z -> Z -> F) (up : bool)
    (out : buffer F) (trace : list point) :
  buffer_wf 3 out = true ->
  0 < snd (dim_range out 0) -> 0 < snd (dim_range out 1) -> 0 < snd (dim_range out 2) ->
  snd (dim_range out 0) < fst (output_tile up) \/ snd (dim_range out 1) < snd (output_tile up) ->
  schedule_execution up out trace ->
  realize f out trace = None.
Proof. exact (small_output_realize_none f up out trace). Qed.

(** C14: parallel tile rows overlap: when the output's height exceeds
    the tile height and is not a multiple of it, the last tile row is
    shifted inwards onto the one before, so two different tasks of the
    parallel loop, for every channel, store the same output point (the
    same value: the race is benign).  The output is not partitioned
    between the workers. *)
Theorem tile_rows_overlap {F : Type} (up : bool) (out : buffer F) (c : Z) :
  0 < snd (dim_range out 0) ->
  snd (output_tile up) < snd (dim_range out 1) ->
  snd (dim_range out 1) mod snd (output_tile up) <> 0 ->
  exists i j ti tj p, i <> j /\
    nth_error (row_tasks (dim_range out 0) (dim_range out 1)
                 (fst (output_tile up)) (snd (output_tile up)) c) i = Some ti /\
    nth_error (row_tasks (dim_range out 0) (dim_range out 1)
                 (fst (output_tile up)) (snd (output_tile up)) c) j = Some tj /\
    In p ti /\ In p tj.
Proof.
  intros Hx Hy Hm.
  assert (0 < fst (output_tile up) /\ 0 < snd (output_tile up)) as [Hfx Hfy]
    by (destruct up; cbn; lia).
  destruct (split_loop_nonempty (fst (dim_range out 0)) (snd (dim_range out 0)) _ Hfx Hx)
    as [x0 Hx0].
  destruct (split_last_overlap (fst (dim_range out 1)) (snd (dim_range out 1))
              (snd (output_tile up)) ltac:(lia) Hm) as (Hn & Hi & Hj).
  set (n := Z.to_nat (split_outer (snd (dim_range out 1)) (snd (output_tile up)))) in *.
  exists (n - 2)%nat, (n - 1)%nat.
  unfold row_tasks, split_loop. rewrite !nth_error_map, !nth_error_rdom by lia. cbn [option_map].
  do 3 eexists. split; [| split; [reflexivity | split; [reflexivity |]]]; [lia |].
  split; apply in_tile_row; [exact Hx0 | exact Hi | exact Hx0 | exact Hj].
Qed.

(** ** Witnesses *)

Lemma serial_trace_execution {F : Type} (up : bool) (out : buffer F) :
  schedule_execution up out (serial_trace up out).
Proof. apply output_loop_nest_execution. Qed.

Lemma schedule_realizes_witness :
  buffer_wf 3 out_32x8 = true /\ offsets_injective (dims out_32x8) /\
  fst (output_tile false) <= snd (dim_range out_32x8 0) /\
  snd (output_tile false) <= snd (dim_range out_32x8 1) /\
  schedule_execution false out_32x8 (serial_trace false out_32x8) /\
  exists out', realize (fun x y _ => x + 100 * y) out_32x8 (serial_trace false out_32x8) = Some out' /\
    dims out' = dims out_32x8 /\
    forall x y c, coords_in_range (dims out_32x8) [x; y; c] = true ->
      buf_read out' [x; y; c] = Some (x + 100 * y).
Proof.
  assert (Hwf : buffer_wf 3 out_32x8 = true) by reflexivity.
  assert (Hinj : offsets_injective (dims out_32x8)) by (apply dense_injective; reflexivity).
  assert (Hx : fst (output_tile false) <= snd (dim_range out_32x8 0)) by (cbn; lia).
  assert (Hy : snd (output_tile false) <= snd (dim_range out_32x8 1)) by (cbn; lia).
  pose proof (serial_trace_execution false out_32x8) as Hex.
  split; [exact Hwf |]. split; [exact Hinj |]. split; [exact Hx |]. split; [exact Hy |].
  split; [exact Hex |].
  exact (schedule_realizes (fun x y _ => x + 100 * y) false out_32x8 _ Hwf Hinj Hx Hy Hex).
Defined.

Lemma schedule_small_output_fails_witness :
  buffer_wf 3 out_8x8 = true /\ 0 < snd (dim_range out_8x8 0) /\
  0 < snd (dim_range out_8x8 1) /\ 0 < snd (dim_range out_8x8 2) /\
  snd (dim_range out_8x8 0) < fst (output_tile false) /\
  schedule_execution false out_8x8 (serial_trace false out_8x8) /\
  realize (fun x y _ => x + 100 * y) out_8x8 (serial_trace false out_8x8) = None.
Proof.
  assert (Hwf : buffer_wf 3 out_8x8 = true) by reflexivity.
  assert (H0 : 0 < snd (dim_range out_8x8 0)) by (cbn; lia).
  assert (H1 : 0 < snd (dim_range out_8x8 1)) by (cbn; lia).
  assert (H2 : 0 < snd (dim_range out_8x8 2)) by (cbn; lia).
  assert (Hs : snd (dim_range out_8x8 0) < fst (output_tile false)) by (cbn; lia).
  pose proof (serial_trace_execution false out_8x8) as Hex.
  split; [exact Hwf |]. split; [exact H0 |]. split; [exact H1 |]. split; [exact H2 |].
  split; [exact Hs |]. split; [exact Hex |].
  exact (schedule_small_output_fails _ false out_8x8 _ Hwf H0 H1 H2 (or_introl Hs) Hex).
Defined.

Lemma tile_rows_overlap_witness :
  0 < snd (dim_range out_32x12 0) /\ snd (output_tile false) < snd (dim_range out_32x12 1) /\
  snd (dim_range out_32x12 1) mod snd (output_tile false) <> 0 /\
  exists i j ti tj p, i <> j /\
    nth_error (row_tasks (dim_range out_32x12 0) (dim_range out_32x12 1)
                 (fst (output_tile false)) (snd (output_tile false)) 0) i = Some ti /\
    nth_error (row_tasks (dim_range out_32x12 0) (dim_range out_32x12 1)
                 (fst (output_tile false)) (snd (output_tile false)) 0) j = Some tj /\
    In p ti /\ In p tj.
Proof.
  assert (H0 : 0 < snd (dim_range out_32x12 0)) by (cbn; lia).
  assert (H1 : snd (output_tile false) < snd (dim_range out_32x12 1)) by (cbn; lia).
  assert (H2 : snd (dim_range out_32x12 1) mod snd (output_tile false) <> 0) by (cbn; lia).
  split; [exact H0 |]. split; [exact H1 |]. split; [exact H2 |].
  exact (tile_rows_overlap false out_32x12 0 H0 H1 H2).
Defined.
