(* ===== verification/Cache.v ===== *)
(** * Intermediate Funcs stored at a loop level (resize_generator.cpp, lines 132-174)

    [f.compute_root()] and [f.compute_at(g, v)] store a Func in a buffer
    over the region that its consumers read (all of it, or one iteration
    of [g]'s loop [v]); the consumer then loads from that buffer instead
    of recomputing.  [realize2] is such a buffer for a 2-D Func over a
    box (dense, x innermost); [load] is a read from it.  For one channel
    [c] (the outermost loop) and one output tile, the schedule stores:

    - upsampling (lines 134-153, 155-165): [kernel_x] at root over the
      output's x range; [kernel_y] and [clamped] at the output's tile
      row; [resized_x] at the output's tile; [resized_y] inline in
      [output];
    - downsampling (lines 134-153, 166-173): [kernel_x] at root;
      [kernel_y] and [resized_y] at the output's tile row; [resized_x]
      inline in [output].

    [unnormalized_kernel] and [kernel_sum] are stored at [kernel_x]'s
    and [kernel_y]'s loop over x (or y) and read at that same point,
    so they are the Funcs' own values; [vectorize] and [reorder] change
    the order of the stores and not their values.  Neither is modelled
    further.

    The regions are the tap windows of the tile: from the first tap of
    its first point to the last tap of its last point ([tap_region]).
    Since [begin] is monotone for a positive scale factor, every load
    then falls inside the stored region, and the stored pipeline
    computes the value of [output] at every point of the tile. *)

From Stdlib Require Import ZArith QArith Qminmax Lqa List Lia.
From Stdlib Require Import Morphisms Setoid.
From S2P Require Import Prelude ScalarQ Kernels Buffer Weights Resample.
Import ListNotations.
Open Scope halide_scope.

(** A 2-D Func stored over the box [xr x yr] (min, extent), x innermost. *)
Definition realize2 {F : Type} (g : Z -> Z -> F) (xr yr : Z * Z) : buffer F :=
  {| dims := [ {| dmin := fst xr; dextent := snd xr; dstride := 1 |};
               {| dmin := fst yr; dextent := snd yr; dstride := snd xr |} ];
     host := flat_map (fun y => map (fun x => g x y) (rdom (fst xr) (snd xr)))
               (rdom (fst yr) (snd yr)) |}.

(** A load from a stored Func; 0 outside the stored region. *)
Definition load (b : buffer Q) (x y : Z) : Q :=
  match buf_read b [x; y] with Some v => v | None => 0 end.

Section Tiles.
Variables (interpolation_type : InterpolationType) (input : buffer Q) (scale_factor : Q).

Local Abbreviation taps_r up := (kernel_taps interpolation_type up scale_factor).
Local Abbreviation begin_r up := (begin interpolation_type up scale_factor).
Local Abbreviation kernel_r up := (normalized_kernel interpolation_type up scale_factor).

(** The region read along one axis by the output points [lo .. hi]:
    from [begin lo] to [begin hi + kernel_taps - 1]. *)
Definition tap_region (up : bool) (lo hi : Z) : Z * Z :=
  (begin_r up lo, (begin_r up hi + taps_r up - begin_r up lo)%Z).

(** [kernel_x.compute_root()] over the output's x range [xlo .. xhi],
    and [kernel_y] at a tile row [ylo .. yhi]: the table of weights. *)
Definition kernel_table (up : bool) (lo hi : Z) : buffer Q :=
  realize2 (fun v k => kernel_r up v k) (lo, (hi - lo + 1)%Z) (0%Z, taps_r up).

(** Upsampling, one tile: x points [X], tile row [ylo .. yhi], output
    x range [xlo .. xhi], channel [c]. *)
Definition clamped_row_up (xlo xhi ylo yhi c : Z) : buffer Q :=
  realize2 (fun x y => clamped_sample input x y c) (tap_region true xlo xhi) (tap_region true ylo yhi).

Definition resized_x_tile_up (xlo xhi : Z) (X : Z * Z) (ylo yhi c : Z) : buffer Q :=
  realize2 (fun x y => hsum 0 (taps_r true)
              (fun r => load (kernel_table true xlo xhi) x r *!
                        load (clamped_row_up xlo xhi ylo yhi c) (r + begin_r true x) y))
    X (tap_region true ylo yhi).

Definition output_tile_up (xlo xhi : Z) (X : Z * Z) (ylo yhi c x y : Z) : Q :=
  clamp (hsum 0 (taps_r true)
           (fun r => load (kernel_table true ylo yhi) y r *!
                     load (resized_x_tile_up xlo xhi X ylo yhi c) x (r + begin_r true y)))
    (f_lit 0) (f_lit 1).

(** Downsampling, one tile row [ylo .. yhi] of the output x range
    [xlo .. xhi], channel [c]. *)
Definition resized_y_row_down (xlo xhi ylo yhi c : Z) : buffer Q :=
  realize2 (fun x y => hsum 0 (taps_r false)
              (fun r => load (kernel_table false ylo yhi) y r *!
                        clamped_sample input x (r + begin_r false y) c))
    (tap_region false xlo xhi) (ylo, (yhi - ylo + 1)%Z).

Definition output_row_down (xlo xhi ylo yhi c x y : Z) : Q :=
  clamp (hsum 0 (taps_r false)
           (fun r => load (kernel_table false xlo xhi) x r *!
                     load (resized_y_row_down xlo xhi ylo yhi c) (r + begin_r false x) y))
    (f_lit 0) (f_lit 1).

End Tiles.

(** ** Lemmas *)

(** A load inside the stored box reads the Func. *)
Lemma load_realize2 (g : Z -> Z -> Q) (xr yr : Z * Z) (x y : Z) :
  (fst xr <= x < fst xr + snd xr)%Z -> (fst yr <= y < fst yr + snd yr)%Z ->
  load (realize2 g xr yr) x y = g x y.
Proof.
  destruct xr as [xm xe], yr as [ym ye]. cbn [fst snd]. intros Hx Hy.
  unfold load, buf_read, realize2. cbn [dims host].
  replace (coords_in_range _ _) with true
    by (symmetry; cbn; rewrite !andb_true_iff, !Z.leb_le, !Z.ltb_lt; lia).
  cbn [coords_offset dmin dstride fst snd].
  match goal with
  | |- context [Z.to_nat ?o] =>
      replace o with (Z.of_nat (Z.to_nat (y - ym) * Z.to_nat xe + Z.to_nat (x - xm)))
        by (rewrite Nat2Z.inj_add, Nat2Z.inj_mul, !Z2Nat.id by lia; ring)
  end.
  rewrite Nat2Z.id.
  rewrite flat_map_concat_map, (nth_error_concat_uniform _ (Z.to_nat xe)).
  - rewrite nth_error_map, nth_error_rdom by lia. cbn [option_map].
    rewrite nth_error_map, nth_error_rdom by lia. cbn [option_map].
    f_equal; lia.
  - apply Forall_forall. intros l Hl. apply in_map_iff in Hl as (y' & <- & _).
    now rewrite length_map, rdom_length.
  - lia.
Qed.

(** The taps of the output points [lo .. hi] fall in their region. *)
Lemma tap_in_region (t : InterpolationType) (s : Q) (up : bool) (lo hi v r : Z) :
  0 < s -> (lo <= v <= hi)%Z -> (0 <= r < kernel_taps t up s)%Z ->
  (fst (tap_region t s up lo hi) <= r + begin t up s v <
   fst (tap_region t s up lo hi) + snd (tap_region t s up lo hi))%Z.
Proof.
  intros Hs Hv Hr. unfold tap_region. cbn [fst snd].
  pose proof (begin_monotone t up s lo v Hs ltac:(lia)).
  pose proof (begin_monotone t up s v hi Hs ltac:(lia)). lia.
Qed.

(** A load from the weight table of the points [lo .. hi]. *)
Lemma load_kernel_table (t : InterpolationType) (s : Q) (up : bool) (lo hi v r : Z) :
  (lo <= v <= hi)%Z -> (0 <= r < kernel_taps t up s)%Z ->
  load (kernel_table t s up lo hi) v r = normalized_kernel t up s v r.
Proof. intros Hv Hr. unfold kernel_table. apply load_realize2; cbn [fst snd]; lia. Qed.

(** ** Properties of the stored pipeline *)

(** C6: the upsampling schedule computes [output]: with [kernel_x]
    stored at root, [kernel_y] and [clamped] at the tile row, and
    [resized_x] at the tile, every point of a tile whose x points lie in
    the output's x range gets the value of [output] (positive scale). *)
Theorem output_tile_up_correct (t : InterpolationType) (input : buffer Q) (s : Q)
    (xlo xhi : Z) (X : Z * Z) (ylo yhi c x y : Z) :
  0 < s -> (xlo <= fst X)%Z -> (fst X + snd X <= xhi + 1)%Z ->
  (fst X <= x < fst X + snd X)%Z -> (ylo <= y <= yhi)%Z ->
  output_tile_up t input s xlo xhi X ylo yhi c x y == output t true input s x y c.
Proof.
  intros Hs HX1 HX2 Hx Hy.
  change (output t true input s x y c)
    with (clamp (resized_y_up t true input s x y c) (f_lit 0) (f_lit 1)).
  unfold output_tile_up. apply clamp_Q_Proper; [| reflexivity | reflexivity].
  unfold resized_y_up. qops. apply hsum_ext. intros r Hr.
  rewrite load_kernel_table by lia.
  unfold resized_x_tile_up. rewrite load_realize2 by (first [apply tap_in_region; [exact Hs | lia | lia] | lia]).
  unfold resized_x_up. qops. apply Qmult_comp; [reflexivity |]. apply hsum_ext. intros r' Hr'.
  rewrite load_kernel_table by lia. unfold clamped_row_up.
  rewrite load_realize2 by (apply tap_in_region; [exact Hs | lia | lia]). reflexivity.
Qed.

(** C7: the downsampling schedule computes [output]: with [kernel_x]
    stored at root and [kernel_y] and [resized_y] at the tile row, every
    point of a tile row of the output's x range gets the value of
    [output] (positive scale). *)
Theorem output_row_down_correct (t : InterpolationType) (input : buffer Q) (s : Q)
    (xlo xhi ylo yhi c x y : Z) :
  0 < s -> (xlo <= x <= xhi)%Z -> (ylo <= y <= yhi)%Z ->
  output_row_down t input s xlo xhi ylo yhi c x y == output t false input s x y c.
Proof.
  intros Hs Hx Hy.
  change (output t false input s x y c)
    with (clamp (resized_x_down t false input s x y c) (f_lit 0) (f_lit 1)).
  unfold output_row_down. apply clamp_Q_Proper; [| reflexivity | reflexivity].
  unfold resized_x_down. qops. apply hsum_ext. intros r Hr.
  rewrite load_kernel_table by lia.
  unfold resized_y_row_down. rewrite load_realize2 by (first [apply tap_in_region; [exact Hs | lia | lia] | cbn [fst snd]; lia]).
  unfold resized_y_down. qops. apply Qmult_comp; [reflexivity |]. apply hsum_ext. intros r' Hr'.
  rewrite load_kernel_table by lia. reflexivity.
Qed.

(** ** Witnesses *)

Lemma output_tile_up_correct_witness :
  0 < 2 /\ (0 <= fst (0%Z, 4%Z))%Z /\ (fst (0%Z, 4%Z) + snd (0%Z, 4%Z) <= 3 + 1)%Z /\
  (fst (0%Z, 4%Z) <= 1 < fst (0%Z, 4%Z) + snd (0%Z, 4%Z))%Z /\ (0 <= 2 <= 3)%Z /\
  output_tile_up Cubic checker_2x2 2 0 3 (0%Z, 4%Z) 0 3 0 1 2 == output Cubic true checker_2x2 2 1 2 0.
Proof.
  assert (Hs : 0 < 2) by (vm_compute; reflexivity).
  split; [exact Hs |]. split; [cbn; lia |]. split; [cbn; lia |]. split; [cbn; lia |].
  split; [lia |].
  apply (output_tile_up_correct Cubic checker_2x2 2 0 3 (0%Z, 4%Z) 0 3 0 1 2); [exact Hs | cbn; lia ..].
Defined.

Lemma output_row_down_correct_witness :
  0 < 1 # 2 /\ (0 <= 1 <= 3)%Z /\ (0 <= 0 <= 0)%Z /\
  output_row_down Linear checker_2x2 (1 # 2) 0 3 0 0 0 1 0 == output Linear false checker_2x2 (1 # 2) 1 0 0.
Proof.
  assert (Hs : 0 < 1 # 2) by (vm_compute; reflexivity).
  split; [exact Hs |]. split; [lia |]. split; [lia |].
  apply (output_row_down_correct Linear checker_2x2 (1 # 2) 0 3 0 0 0 1 0); [exact Hs | lia | lia].
Defined.
