(* ===== verification/Generator.v ===== *)
(** * The Resize generator (resize_generator.cpp, lines 54-130)

    The class [Resize]: its two generator parameters with their
    defaults, its inputs, the Funcs it declares, and [generate] building
    them from the components of Weights.v and Resample.v.

    Halide checks, before running the pipeline, that the input buffer
    contains the region the pipeline reads.  That region is what
    [repeat_edge(input, {{min0, extent0}, {min1, extent1}})] reads at
    the output's channels: [input_bounds_ok] is the condition, and the
    theorem below derives it from [clamped]: every read of the input
    through [repeat_edge] is in bounds exactly when the input has at
    least one column and one row and has the output's channels.  An
    input with no columns or rows is read out of bounds (the clamp
    interval [min, min - 1] still reads [min]), so the pipeline fails
    its bounds check, where the spec (section 7) says the result is
    empty. *)

From Stdlib Require Import ZArith QArith List Lia Bool.
From S2P Require Import Prelude ScalarQ Kernels Buffer Weights Resample Schedule.
Import ListNotations.

(** [GeneratorParam<InterpolationType> interpolation_type] and
    [GeneratorParam<bool> upsample]. *)
Record ResizeParams := {
  interpolation_type : InterpolationType;
  upsample : bool
}.

(** [GeneratorParam<bool> upsample{"upsample", false}]. *)
Definition upsample_default : bool := false.

Definition default_params : ResizeParams :=
  {| interpolation_type := interpolation_type_default; upsample := upsample_default |}.

Module Resize.

(** The generator object: its parameters and its two inputs
    [input] (a 3-D float buffer) and [scale_factor]. *)
Record Resize (F : Type) := {
  params : ResizeParams;
  input : buffer F;
  scale_factor : F
}.

(** The Funcs the class declares, as functions of their coordinates. *)
Record Funcs (F : Type) := {
  clamped : Z -> Z -> Z -> F;
  resized_x : Z -> Z -> Z -> F;
  resized_y : Z -> Z -> Z -> F;
  unnormalized_kernel_x : Z -> Z -> F;
  unnormalized_kernel_y : Z -> Z -> F;
  kernel_x : Z -> Z -> F;
  kernel_y : Z -> Z -> F;
  kernel_sum_x : Z -> F;
  kernel_sum_y : Z -> F;
  output : Z -> Z -> Z -> F
}.

End Resize.

Arguments Resize.params {F}.
Arguments Resize.input {F}.
Arguments Resize.scale_factor {F}.
Arguments Resize.Build_Funcs {F}.

(** [Resize::generate]: every Func, with the definitions of the
    branch [upsample] selects. *)
Definition generate {F : Type} `{FloatOps F} (g : Resize.Resize F) : Resize.Funcs F :=
  let t := interpolation_type (Resize.params g) in
  let up := upsample (Resize.params g) in
  let input := Resize.input g in
  let s := Resize.scale_factor g in
  {| Resize.clamped := clamped_sample input;
     Resize.resized_x := if up then resized_x_up t up input s else resized_x_down t up input s;
     Resize.resized_y := if up then resized_y_up t up input s else resized_y_down t up input s;
     Resize.unnormalized_kernel_x := unnormalized_kernel t up s;
     Resize.unnormalized_kernel_y := unnormalized_kernel t up s;
     Resize.kernel_x := normalized_kernel t up s;
     Resize.kernel_y := normalized_kernel t up s;
     Resize.kernel_sum_x := kernel_sum t up s;
     Resize.kernel_sum_y := kernel_sum t up s;
     Resize.output := output t up input s |}.

(** Halide's check of the input before the pipeline runs: the input has
    a column and a row, and the output's channels. *)
Definition input_bounds_ok {F : Type} (input out : buffer F) : bool :=
  (0 <? snd (dim_range input 0))%Z && (0 <? snd (dim_range input 1))%Z &&
  (fst (dim_range input 2) <=? fst (dim_range out 2))%Z &&
  (fst (dim_range out 2) + snd (dim_range out 2) <=?
     fst (dim_range input 2) + snd (dim_range input 2))%Z.

(** An input with no columns. *)
Definition empty_input : buffer Q :=
  {| dims := [ {| dmin := 0; dextent := 0; dstride := 1 |};
               {| dmin := 0; dextent := 2; dstride := 0 |};
               {| dmin := 0; dextent := 1; dstride := 0 |} ];
     host := [] |}.

Definition out_q_32x8 : buffer Q := {| dims := dims out_32x8; host := repeat 0 256 |}.

(** ** Lemmas *)

(** When the check passes, every read of [clamped] at a channel of the
    output is inside the input. *)
Lemma input_reads_in_bounds {F : Type} (input out : buffer F) (x y c : Z) :
  buffer_wf 3 input = true -> input_bounds_ok input out = true ->
  (fst (dim_range out 2) <= c < fst (dim_range out 2) + snd (dim_range out 2))%Z ->
  exists v, clamped input x y c = Some v.
Proof.
  unfold input_bounds_ok. rewrite !andb_true_iff, !Z.ltb_lt, !Z.leb_le.
  intros Hwf (((Hx & Hy) & Hlo) & Hhi) Hc. unfold clamped, repeat_edge.
  apply (buf_read_in_range 3); [exact Hwf |]. apply clamped_coords_in_range; [exact Hwf | lia | lia | lia].
Qed.

(** A read that succeeds is in range. *)
Lemma buf_read_some_in_range {F : Type} (b : buffer F) (cs : list Z) (v : F) :
  buf_read b cs = Some v -> coords_in_range (dims b) cs = true.
Proof. unfold buf_read. destruct (coords_in_range _ _); [reflexivity | discriminate]. Qed.

(** ** Properties of the generator's input *)

(** C20: every read the pipeline makes of its input is in bounds exactly
    when Halide's input check passes: for a well-formed input and an
    output with channels, all reads of [clamped] (the input through
    [repeat_edge]) at the output's channels succeed if and only if the
    input has at least one column, at least one row, and every channel
    of the output.  In particular an input with no columns or no rows
    is read out of bounds, whatever the output. *)
Theorem input_reads_in_bounds_iff {F : Type} (input out : buffer F) :
  buffer_wf 3 input = true -> (0 < snd (dim_range out 2))%Z ->
  input_bounds_ok input out = true <->
  (forall x y c, (fst (dim_range out 2) <= c < fst (dim_range out 2) + snd (dim_range out 2))%Z ->
     exists v, clamped input x y c = Some v).
Proof.
  intros Hwf Hc. split; [intros Hok x y c; exact (input_reads_in_bounds input out x y c Hwf Hok) |].
  intros Hall. destruct (buffer_wf_dims3 _ Hwf) as (d0 & d1 & d2 & Hd).
  destruct (dim_range_of _ _ _ _ Hd) as (E0 & E1 & E2).
  assert (Hin : forall c, (fst (dim_range out 2) <= c < fst (dim_range out 2) + snd (dim_range out 2))%Z ->
            coords_in_range [d0; d1; d2]
              [clampZ (dmin d0) (dmin d0) (dmin d0 + dextent d0 - 1);
               clampZ (dmin d1) (dmin d1) (dmin d1 + dextent d1 - 1); c] = true).
  { intros c Hc'. destruct (Hall (dmin d0) (dmin d1) c Hc') as [v Hv].
    unfold clamped, repeat_edge in Hv. rewrite E0, E1 in Hv.
    apply buf_read_some_in_range in Hv. rewrite Hd in Hv. exact Hv. }
  pose proof (Hin (fst (dim_range out 2)) ltac:(lia)) as H1.
  pose proof (Hin (fst (dim_range out 2) + snd (dim_range out 2) - 1)%Z ltac:(lia)) as H2.
  apply coords_in_range3 in H1, H2. unfold clampZ in H1, H2.
  unfold input_bounds_ok. rewrite E0, E1, E2. cbn [fst snd].
  rewrite !andb_true_iff, !Z.ltb_lt, !Z.leb_le. lia.
Qed.

Lemma input_reads_in_bounds_iff_witness :
  input_bounds_ok empty_input out_q_32x8 = false /\
  ~ (forall x y c, (fst (dim_range out_q_32x8 2) <= c <
                    fst (dim_range out_q_32x8 2) + snd (dim_range out_q_32x8 2))%Z ->
       exists v, clamped empty_input x y c = Some v).
Proof.
  assert (He : input_bounds_ok empty_input out_q_32x8 = false) by reflexivity.
  split; [exact He |]. intros Hall.
  pose proof (proj2 (input_reads_in_bounds_iff empty_input out_q_32x8
                       ltac:(reflexivity) ltac:(cbn; lia)) Hall) as Hok.
  rewrite He in Hok. discriminate.
Defined.
